(** * Kairos audio auditor: sanitizer and audit coordinator

    A shallow embedding of [kairos_auditor.py] (class [KairosReader]):
    the Python [str] operations it relies on ([re.sub] with a negated
    character set, [str.strip]), the sanitizer, the constructor, and the
    event-driven coordinator ([run_audio], [speak_task], [reset_ui])
    as a labelled transition system over the widgets, the speech engine,
    the worker threads and Tk's [after] queue. *)

From Stdlib Require Import String Ascii List Bool NArith ZArith Lia.
Import ListNotations.

(** ** Python strings *)

(** A [str] is a sequence of Unicode code points. *)
Definition char := N.
Bind Scope N_scope with char.
Definition str := list char.

(** ASCII literals of the source, as [str] values. *)
Definition py (s : string) : str := map N_of_ascii (list_ascii_of_string s).

(** The Unicode character database consulted by [\w], [\s] and
    [str.strip] for code points beyond ASCII.  It belongs to the Python
    runtime, not to the program, and is a parameter of the development. *)
Class UnicodeData := {
  uni_isalnum : char -> bool;
  uni_isspace : char -> bool
}.

Definition between (lo hi c : N) : bool := ((lo <=? c) && (c <=? hi))%N.

(** [0-9A-Za-z] *)
Definition ascii_isalnum (c : char) : bool :=
  between 48 57 c || between 65 90 c || between 97 122 c.

(** The ASCII white space of the runtime: TAB, LF, VT, FF, CR, the four
    separators FS, GS, RS, US, and SPACE. *)
Definition ascii_whitespace (c : char) : bool :=
  between 9 13 c || between 28 32 c.

Section Unicode.
Context {U : UnicodeData}.

Definition Py_UNICODE_ISALNUM (c : char) : bool :=
  if (c <? 128)%N then ascii_isalnum c else uni_isalnum c.

Definition Py_UNICODE_ISSPACE (c : char) : bool :=
  if (c <? 128)%N then ascii_whitespace c else uni_isspace c.

(** [\w] on a [str] pattern: alphanumeric or underscore. *)
Definition SRE_UNI_IS_WORD (c : char) : bool :=
  Py_UNICODE_ISALNUM c || (c =? 95)%N.

(** *** [str.strip()] *)

Fixpoint lstrip (s : str) : str :=
  match s with
  | [] => []
  | c :: rest => if Py_UNICODE_ISSPACE c then lstrip rest else s
  end.

Definition rstrip (s : str) : str := rev (lstrip (rev s)).

Definition strip (s : str) : str := rstrip (lstrip s).

(** *** The fragment of [re] the program uses

    A pattern made of one character set, [[...]] or [[^...]], whose
    members are literals and the categories [\w] and [\s]. *)

Inductive set_item :=
| LITERAL (c : char)
| CATEGORY_WORD
| CATEGORY_SPACE.

Record charset := { negate : bool; items : list set_item }.

Definition item_matches (c : char) (i : set_item) : bool :=
  match i with
  | LITERAL l => (c =? l)%N
  | CATEGORY_WORD => SRE_UNI_IS_WORD c
  | CATEGORY_SPACE => Py_UNICODE_ISSPACE c
  end.

Definition charset_matches (p : charset) (c : char) : bool :=
  xorb (negate p) (existsb (item_matches c) (items p)).

(** [re.sub(p, repl, text)] for a one-set pattern: scanning left to
    right, every character the set matches is replaced by [repl]. *)
Fixpoint re_sub (p : charset) (repl text : str) : str :=
  match text with
  | [] => []
  | c :: rest =>
      if charset_matches p c then repl ++ re_sub p repl rest
      else c :: re_sub p repl rest
  end.

(** ** [KairosReader.sanitize] *)

(** [r'[^\w\s\.,!?\-]'] *)
Definition sanitize_pattern : charset :=
  {| negate := true;
     items := [CATEGORY_WORD; CATEGORY_SPACE;
               LITERAL 46; LITERAL 44; LITERAL 33; LITERAL 63; LITERAL 45] |}.

Definition sanitize (text : str) : str := re_sub sanitize_pattern [] text.

End Unicode.

Arguments strip {U} s : simpl never.
Arguments sanitize {U} text : simpl never.

(** The character class the specification gives for [Clean]:
    [[A-Za-z0-9\s.,!?-]]. *)
Definition punctuation_mark (c : char) : bool :=
  ((c =? 46) || (c =? 44) || (c =? 33) || (c =? 63) || (c =? 45))%N.

Definition spec_char {U : UnicodeData} (c : char) : bool :=
  ascii_isalnum c || Py_UNICODE_ISSPACE c || punctuation_mark c.

(** What the pattern keeps: the specification's class, the underscore,
    and every alphanumeric code point beyond ASCII. *)
Definition kept_char {U : UnicodeData} (c : char) : bool :=
  spec_char c || (c =? 95)%N || ((128 <=? c)%N && uni_isalnum c).

(** [l1] is [l2] with some elements deleted. *)
Inductive subsequence {A : Type} : list A -> list A -> Prop :=
| subsequence_nil : subsequence [] []
| subsequence_drop x l1 l2 : subsequence l1 l2 -> subsequence l1 (x :: l2)
| subsequence_keep x l1 l2 : subsequence l1 l2 -> subsequence (x :: l1) (x :: l2).

(** The Unicode database on the Latin-1 supplement (code points 128 to
    255), where it is small enough to write down; used to run the model
    on concrete inputs. *)
Definition latin1 : UnicodeData :=
  {| uni_isalnum c :=
       (c =? 170)%N || between 178 179 c || (c =? 181)%N ||
       between 185 186 c || between 188 190 c ||
       between 192 214 c || between 216 246 c || between 248 255 c;
     uni_isspace c := (c =? 133)%N || (c =? 160)%N |}.

(** ** Widgets, engine, threads *)

Inductive btn_state := NORMAL | DISABLED.

Inductive status_text := SYSTEM_READY | AUDIT_IN_PROGRESS.

(** An instance of [Exception], by its message: what the engine driver
    and Tk raise. *)
Definition exn := string.
Bind Scope string_scope with exn.

(** How a call into the speech backend ends. *)
Inductive outcome := Returns | Raises (e : exn).

Inductive thread_id := MainThread | WorkerThread (n : nat).

(** Calls that leave the object, in the order they are made. *)
Inductive event :=
| E_showerror (title : string) (e : exn)
| E_showwarning (title message : string)
| E_root_destroy
| E_ui_init
| E_btn_config (b : btn_state)
| E_status_config (t : status_text)
| E_thread_start (n : nat)
| E_slider_get (r : Z)
| E_set_rate (r : Z)
| E_say (text : str)
| E_runAndWait
| E_print (e : exn)
| E_after_reset_ui.

Definition trace_t := list (thread_id * event).

(** A command the engine holds until its run loop executes it. *)
Inductive command :=
| Set_rate (r : Z)
| Say (text : str).

(** The pyttsx3 engine as far as the program drives it.  [setProperty]
    and [say] only queue a command; the run loop of [runAndWait]
    executes the queued commands in order.  [rate] is the rate the
    driver speaks at, [pending] the commands not yet executed, [spoken]
    the utterances spoken so far, each with the rate it was spoken at. *)
Record engine_state := {
  rate : Z;
  pending : list command;
  spoken : list (str * Z)
}.

Definition default_engine : engine_state :=
  {| rate := 200%Z; pending := []; spoken := [] |}.

(** The utterances waiting in the queue. *)
Fixpoint utterances (cs : list command) : list str :=
  match cs with
  | [] => []
  | Set_rate _ :: rest => utterances rest
  | Say t :: rest => t :: utterances rest
  end.

Definition queue (e : engine_state) : list str := utterances (pending e).

(** [setProperty('rate', r)] *)
Definition set_rate (r : Z) (e : engine_state) : engine_state :=
  {| rate := rate e; pending := pending e ++ [Set_rate r];
     spoken := spoken e |}.

(** [say(text)] *)
Definition say (text : str) (e : engine_state) : engine_state :=
  {| rate := rate e; pending := pending e ++ [Say text];
     spoken := spoken e |}.

(** The run loop: each queued command in turn, a rate change taking
    effect for the utterances queued after it. *)
Fixpoint replay (cs : list command) (r : Z) (sp : list (str * Z))
    : Z * list (str * Z) :=
  match cs with
  | [] => (r, sp)
  | Set_rate r' :: rest => replay rest r' sp
  | Say t :: rest => replay rest r (sp ++ [(t, r)])
  end.

(** [runAndWait()] *)
Definition runAndWait (e : engine_state) : engine_state :=
  let (r, sp) := replay (pending e) (rate e) (spoken e) in
  {| rate := r; pending := []; spoken := sp |}.

(** Where a [speak_task] thread stands (lines 124 to 136). *)
Inductive pc :=
| At_sanitize
| At_setProperty (clean_text : str)
| At_say (clean_text : str)
| At_runAndWait
| At_except (e : exn)
| At_finally.

(** A worker thread: its closure holds [raw_text]. *)
Record worker := { tid : nat; raw_text : str; at_ : pc }.

Inductive callback := Reset_ui.

(** The [KairosReader] object together with the threads it started and
    Tk's queue of [after] callbacks. *)
Record state := {
  text_area : str;
  rate_slider : Z;
  run_btn : btn_state;
  status : status_text;
  engine : option engine_state;
  threads : list worker;
  after_queue : list callback;
  spawned : nat;
  trace : trace_t
}.

Definition log (th : thread_id) (e : event) (s : state) : state :=
  {| text_area := text_area s; rate_slider := rate_slider s;
     run_btn := run_btn s; status := status s; engine := engine s;
     threads := threads s; after_queue := after_queue s;
     spawned := spawned s; trace := trace s ++ [(th, e)] |}.

Definition set_text_area (t : str) (s : state) : state :=
  {| text_area := t; rate_slider := rate_slider s;
     run_btn := run_btn s; status := status s; engine := engine s;
     threads := threads s; after_queue := after_queue s;
     spawned := spawned s; trace := trace s |}.

Definition set_rate_slider (r : Z) (s : state) : state :=
  {| text_area := text_area s; rate_slider := r;
     run_btn := run_btn s; status := status s; engine := engine s;
     threads := threads s; after_queue := after_queue s;
     spawned := spawned s; trace := trace s |}.

Definition set_run_btn (b : btn_state) (s : state) : state :=
  {| text_area := text_area s; rate_slider := rate_slider s;
     run_btn := b; status := status s; engine := engine s;
     threads := threads s; after_queue := after_queue s;
     spawned := spawned s; trace := trace s |}.

Definition set_status (t : status_text) (s : state) : state :=
  {| text_area := text_area s; rate_slider := rate_slider s;
     run_btn := run_btn s; status := t; engine := engine s;
     threads := threads s; after_queue := after_queue s;
     spawned := spawned s; trace := trace s |}.

Definition set_engine (e : option engine_state) (s : state) : state :=
  {| text_area := text_area s; rate_slider := rate_slider s;
     run_btn := run_btn s; status := status s; engine := e;
     threads := threads s; after_queue := after_queue s;
     spawned := spawned s; trace := trace s |}.

Definition set_threads (ws : list worker) (s : state) : state :=
  {| text_area := text_area s; rate_slider := rate_slider s;
     run_btn := run_btn s; status := status s; engine := engine s;
     threads := ws; after_queue := after_queue s;
     spawned := spawned s; trace := trace s |}.

Definition set_after_queue (q : list callback) (s : state) : state :=
  {| text_area := text_area s; rate_slider := rate_slider s;
     run_btn := run_btn s; status := status s; engine := engine s;
     threads := threads s; after_queue := q;
     spawned := spawned s; trace := trace s |}.

(** [threading.Thread(target=speak_task, daemon=True).start()] *)
Definition thread_start (raw : str) (s : state) : state :=
  let n := spawned s in
  {| text_area := text_area s; rate_slider := rate_slider s;
     run_btn := run_btn s; status := status s; engine := engine s;
     threads := threads s ++ [{| tid := n; raw_text := raw; at_ := At_sanitize |}];
     after_queue := after_queue s;
     spawned := S n; trace := trace s ++ [(MainThread, E_thread_start n)] |}.

(** ** [KairosReader.__init__] and [ui_init] *)

(** What the constructor has set up when it reaches [ui_init]. *)
Record partial := {
  root_alive : bool;
  engine_attr : option engine_state;
  init_trace : trace_t
}.

Inductive result :=
| Constructed (s : state)
| Uncaught (e : exn) (tr : trace_t).

(** The [except] branch of the constructor (lines 43 to 47). *)
Definition init_handler (e : exn) (p : partial) : partial :=
  {| root_alive := false;
     engine_attr := engine_attr p;
     init_trace := init_trace p ++
       [(MainThread, E_showerror "Kernel Error"%string
                       ("TTS Engine failed: " ++ e)%string);
        (MainThread, E_root_destroy)] |}.

(** The [try] statement (lines 36 to 47): [o_init] is how
    [pyttsx3.init] ends, [o_volume] how [setProperty('volume', 1.0)]
    does.  The volume itself is not part of the model. *)
Definition init_engine (o_init o_volume : outcome) (p : partial) : partial :=
  match o_init with
  | Raises e => init_handler e p
  | Returns =>
      let p' := {| root_alive := root_alive p;
                   engine_attr := Some default_engine;
                   init_trace := init_trace p |} in
      match o_volume with
      | Raises e => init_handler e p'
      | Returns => p'
      end
  end.

(** What Tk raises when a widget is created under a destroyed root. *)
Definition TclError : exn := "TclError: application has been destroyed"%string.

(** [ui_init] builds the widgets under the root window; Tk refuses the
    first of them with a [TclError] once the root has been destroyed. *)
Definition ui_init (p : partial) : result :=
  let tr := init_trace p ++ [(MainThread, E_ui_init)] in
  if root_alive p then
    Constructed
      {| text_area := []; rate_slider := 200%Z;
         run_btn := NORMAL; status := SYSTEM_READY;
         engine := engine_attr p;
         threads := []; after_queue := []; spawned := 0; trace := tr |}
  else
    Uncaught TclError tr.

(** The constructor: the [try] statement, then [ui_init] whatever its
    outcome (line 49).  Title, geometry and colours of the window are
    presentation and left out. *)
Definition __init__ (o_init o_volume : outcome) : result :=
  ui_init (init_engine o_init o_volume
             {| root_alive := true; engine_attr := None; init_trace := [] |}).

(** ** The coordinator *)

Inductive CoordinatorState := IDLE | RUNNING.

(** The program keeps no state variable of its own: the trigger button
    is the lock (line 113), disabled from [run_audio] to [reset_ui]. *)
Definition coordinator_state (s : state) : CoordinatorState :=
  match run_btn s with
  | NORMAL => IDLE
  | DISABLED => RUNNING
  end.

(** [self.text_area.get("1.0", tk.END)]: the buffer and the newline Tk
    keeps at the end of a text widget. *)
Definition text_area_get (s : state) : str := text_area s ++ [10%N].

(** A call of a method of [self.engine]: no engine attribute, or a
    backend failure, raises and leaves the engine as it was. *)
Definition engine_call (f : engine_state -> engine_state) (o : outcome)
    (s : state) : outcome * state :=
  match engine s with
  | None => (Raises "AttributeError"%string, s)
  | Some eng =>
      match o with
      | Returns => (Returns, set_engine (Some (f eng)) s)
      | Raises e => (Raises e, s)
      end
  end.

(** Inside the [try] block: the next statement, or the handler. *)
Definition continue_with (next : pc) (r : outcome) : pc :=
  match r with
  | Returns => next
  | Raises e => At_except e
  end.

Fixpoint find_thread (n : nat) (ws : list worker) : option worker :=
  match ws with
  | [] => None
  | w :: rest => if Nat.eqb (tid w) n then Some w else find_thread n rest
  end.

Definition move_to (p : pc) (w : worker) : worker :=
  {| tid := tid w; raw_text := raw_text w; at_ := p |}.

(** The thread [n] moves on to [next], or ends ([None]). *)
Fixpoint update_thread (n : nat) (next : option pc) (ws : list worker)
    : list worker :=
  match ws with
  | [] => []
  | w :: rest =>
      if Nat.eqb (tid w) n then
        match next with
        | Some p => move_to p w :: rest
        | None => rest
        end
      else w :: update_thread n next rest
  end.

(** [reset_ui] (lines 141 to 146), run by the main loop. *)
Definition reset_ui (s : state) : state :=
  let s := log MainThread (E_btn_config NORMAL) (set_run_btn NORMAL s) in
  log MainThread (E_status_config SYSTEM_READY) (set_status SYSTEM_READY s).

(** What the operator, the main loop and the scheduler can do next. *)
Inductive label :=
| Operator_edit (text : str)
| Operator_slide (r : Z)
| Operator_click
| Mainloop_after
| Thread_step (n : nat) (o : outcome).

Definition operator (l : label) : bool :=
  match l with
  | Operator_edit _ | Operator_slide _ | Operator_click => true
  | Mainloop_after | Thread_step _ _ => false
  end.

(** The scale widget keeps its value within [from_=100, to=400]. *)
Definition scale_clamp (r : Z) : Z := Z.max 100 (Z.min 400 r).

(** The message box of the empty-buffer guard (line 110). *)
Definition empty_buffer_warning : event :=
  E_showwarning "Logic Error" "Input buffer is empty.".

Section Coordinator.
Context {U : UnicodeData}.

(** One statement of [speak_task] (lines 122 to 136), executed by the
    worker [w]; [o] is how the backend call of that statement ends.
    The result is the statement the thread stands at next, or [None]
    when the thread is over. *)
Definition speak_task (w : worker) (o : outcome) (s : state)
    : option pc * state :=
  let me := WorkerThread (tid w) in
  match at_ w with
  | At_sanitize =>
      (Some (At_setProperty (sanitize (raw_text w))), s)
  | At_setProperty clean_text =>
      let r := rate_slider s in
      let s := log me (E_slider_get r) s in
      let (res, s) := engine_call (set_rate r) o (log me (E_set_rate r) s) in
      (Some (continue_with (At_say clean_text) res), s)
  | At_say clean_text =>
      let (res, s) := engine_call (say clean_text) o (log me (E_say clean_text) s) in
      (Some (continue_with At_runAndWait res), s)
  | At_runAndWait =>
      let (res, s) := engine_call runAndWait o (log me E_runAndWait s) in
      (Some (continue_with At_finally res), s)
  | At_except e =>
      (Some At_finally, log me (E_print e) s)
  | At_finally =>
      (None, log me E_after_reset_ui
               (set_after_queue (after_queue s ++ [Reset_ui]) s))
  end.

(** [run_audio] (lines 100 to 139), the command of the trigger button. *)
Definition run_audio (s : state) : state :=
  let raw := strip (text_area_get s) in
  match raw with
  | [] =>
      log MainThread empty_buffer_warning s
  | _ :: _ =>
      let s := log MainThread (E_btn_config DISABLED) (set_run_btn DISABLED s) in
      let s := log MainThread (E_status_config AUDIT_IN_PROGRESS)
                 (set_status AUDIT_IN_PROGRESS s) in
      thread_start raw s
  end.

(** One step of the running application.  A disabled button ignores
    the click; an empty [after] queue or an unknown thread is no step. *)
Definition step (l : label) (s : state) : state :=
  match l with
  | Operator_edit text => set_text_area text s
  | Operator_slide r => set_rate_slider (scale_clamp r) s
  | Operator_click =>
      match run_btn s with
      | NORMAL => run_audio s
      | DISABLED => s
      end
  | Mainloop_after =>
      match after_queue s with
      | [] => s
      | Reset_ui :: q => reset_ui (set_after_queue q s)
      end
  | Thread_step n o =>
      match find_thread n (threads s) with
      | None => s
      | Some w =>
          let (next, s') := speak_task w o s in
          set_threads (update_thread n next (threads s')) s'
      end
  end.

Fixpoint run (ls : list label) (s : state) : state :=
  match ls with
  | [] => s
  | l :: rest => run rest (step l s)
  end.

(** The states of the application once the constructor has returned. *)
Inductive reachable : state -> Prop :=
| reachable_init s0 :
    __init__ Returns Returns = Constructed s0 -> reachable s0
| reachable_step l s : reachable s -> reachable (step l s).

(** [Submit(rawText, rate)] as the interface shell raises it: the
    buffer and the rate control hold the request, the trigger is
    activated. *)
Definition Submit (rawText : str) (rateWPM : Z) (s : state) : state :=
  step Operator_click
    (step (Operator_slide rateWPM) (step (Operator_edit rawText) s)).

End Coordinator.

(** ** The order of the calls in a trace *)

(** Where a run stands, read off the calls made so far. *)
Inductive phase :=
| P_idle
| P_disabled
| P_started
| P_working (n : nat)
| P_handed
| P_enabling.

(** The call [e] made by [th] in phase [p]: the phase after it, or
    [None] when the call is out of order or made by the wrong thread.
    Widgets are configured by the main thread only, in the cycle
    disable, in progress, enable, ready; a thread works between its
    start and its hand-off. *)
Definition advance (p : phase) (c : thread_id * event) : option phase :=
  match c with
  | (MainThread, E_ui_init) =>
      match p with P_idle => Some P_idle | _ => None end
  | (MainThread, E_showwarning _ _) =>
      match p with P_idle => Some P_idle | _ => None end
  | (MainThread, E_btn_config DISABLED) =>
      match p with P_idle => Some P_disabled | _ => None end
  | (MainThread, E_status_config AUDIT_IN_PROGRESS) =>
      match p with P_disabled => Some P_started | _ => None end
  | (MainThread, E_thread_start n) =>
      match p with P_started => Some (P_working n) | _ => None end
  | (WorkerThread n, (E_slider_get _ | E_set_rate _ | E_say _
                      | E_runAndWait | E_print _)) =>
      match p with
      | P_working m => if Nat.eqb n m then Some p else None
      | _ => None
      end
  | (WorkerThread n, E_after_reset_ui) =>
      match p with
      | P_working m => if Nat.eqb n m then Some P_handed else None
      | _ => None
      end
  | (MainThread, E_btn_config NORMAL) =>
      match p with P_handed => Some P_enabling | _ => None end
  | (MainThread, E_status_config SYSTEM_READY) =>
      match p with P_enabling => Some P_idle | _ => None end
  | _ => None
  end.

Fixpoint protocol (p : phase) (tr : trace_t) : option phase :=
  match tr with
  | [] => Some p
  | c :: rest =>
      match advance p c with
      | Some q => protocol q rest
      | None => None
      end
  end.

(** The phase a state between two steps is in. *)
Definition phase_of (s : state) : option phase :=
  match run_btn s, status s, threads s, after_queue s with
  | NORMAL, SYSTEM_READY, [], [] => Some P_idle
  | DISABLED, AUDIT_IN_PROGRESS, [w], [] => Some (P_working (tid w))
  | DISABLED, AUDIT_IN_PROGRESS, [], [Reset_ui] => Some P_handed
  | _, _, _, _ => None
  end.

(** The two notifications of the interface, as the calls that begin
    them. *)
Inductive notification := OnRunStarted | OnRunFinished.

Definition notification_of (c : thread_id * event) : option notification :=
  match snd c with
  | E_btn_config DISABLED => Some OnRunStarted
  | E_btn_config NORMAL => Some OnRunFinished
  | _ => None
  end.

Fixpoint notifications (tr : trace_t) : list notification :=
  match tr with
  | [] => []
  | c :: rest =>
      match notification_of c with
      | Some n => n :: notifications rest
      | None => notifications rest
      end
  end.

(** Started and finished take turns, started first. *)
Fixpoint alternate (expect_started : bool) (ns : list notification) : bool :=
  match ns with
  | [] => true
  | OnRunStarted :: rest => expect_started && alternate false rest
  | OnRunFinished :: rest => negb expect_started && alternate true rest
  end.

Definition configures_widget (e : event) : bool :=
  match e with
  | E_btn_config _ | E_status_config _ => true
  | _ => false
  end.

Definition on_main_thread (c : thread_id * event) : bool :=
  match fst c with
  | MainThread => true
  | WorkerThread _ => false
  end.

(** Every widget is configured by the main thread. *)
Definition foreground_only (tr : trace_t) : bool :=
  forallb (fun c => implb (configures_widget (snd c)) (on_main_thread c)) tr.

(** Which notification comes next in phase [p]. *)
Definition expects_started (p : phase) : bool :=
  match p with
  | P_idle | P_enabling => true
  | _ => false
  end.

(** What holds between any two steps of the running application: the
    engine attribute is set, the widgets, the threads and the [after]
    queue are in one of the three resting phases, and the calls made so
    far followed the protocol up to that phase. *)
Definition invariant (s : state) : Prop :=
  engine s <> None /\
  exists p, phase_of s = Some p /\ protocol P_idle (trace s) = Some p.

(** The three resting phases, on the state. *)
Definition idle (s : state) : Prop :=
  run_btn s = NORMAL /\ status s = SYSTEM_READY /\
  threads s = [] /\ after_queue s = [].

Definition running_with (w : worker) (s : state) : Prop :=
  run_btn s = DISABLED /\ status s = AUDIT_IN_PROGRESS /\
  engine s <> None /\ threads s = [w] /\ after_queue s = [].

Definition handed_off (s : state) : Prop :=
  run_btn s = DISABLED /\ status s = AUDIT_IN_PROGRESS /\
  threads s = [] /\ after_queue s = [Reset_ui].

(** [s'] differs from [s] in the buffer and the rate control at most. *)
Definition same_run (s s' : state) : Prop :=
  run_btn s' = run_btn s /\ status s' = status s /\
  engine s' = engine s /\ threads s' = threads s /\
  after_queue s' = after_queue s /\ spawned s' = spawned s /\
  trace s' = trace s.

(** The application as [__init__] leaves it when the engine starts. *)
Definition initial_state : state :=
  {| text_area := []; rate_slider := 200%Z;
     run_btn := NORMAL; status := SYSTEM_READY;
     engine := Some default_engine;
     threads := []; after_queue := []; spawned := 0;
     trace := [(MainThread, E_ui_init)] |}.

(** ** States of a sample run, on the Latin-1 database *)

(** The operator pastes a text and triggers the audit. *)
Definition submitted : state :=
  run (U := latin1)
    [Operator_edit (py "Access granted."); Operator_click] initial_state.

(** The thread has sanitized the text and stands at
    [setProperty('rate', ...)]; the operator has moved the rate control
    to 300 in the meantime. *)
Definition configuring : state :=
  run (U := latin1) [Thread_step 0 Returns; Operator_slide 300] submitted.

(** The thread stands at [say]. *)
Definition speaking : state :=
  step (U := latin1) (Thread_step 0 Returns) configuring.

(** The sample run over: the text was spoken and the trigger is back. *)
Definition finished : state :=
  run (U := latin1)
    [Thread_step 0 Returns; Thread_step 0 Returns; Thread_step 0 Returns;
     Mainloop_after] speaking.

(** A failed run followed by a retry: [runAndWait] raises with the
    first text queued at rate 300; the operator then submits a second
    text at rate 250 and that run goes through. *)
Definition retried : state :=
  run (U := latin1)
    [Thread_step 0 Returns;
     Thread_step 0 (Raises "run loop already started");
     Thread_step 0 Returns; Thread_step 0 Returns; Mainloop_after;
     Operator_edit (py "Retry."); Operator_slide 250; Operator_click;
     Thread_step 1 Returns; Thread_step 1 Returns; Thread_step 1 Returns;
     Thread_step 1 Returns; Thread_step 1 Returns; Mainloop_after] speaking.

(** ** What reaches the engine *)

(** The range of the rate control (line 74). *)
Definition rate_in_range (r : Z) : bool := ((100 <=? r) && (r <=? 400))%Z.

(** A text made of kept characters only. *)
Definition clean_text {U : UnicodeData} (t : str) : bool :=
  forallb kept_char t.

Definition no_leading_space {U : UnicodeData} (t : str) : bool :=
  match t with
  | [] => true
  | c :: _ => negb (Py_UNICODE_ISSPACE c)
  end.

(** Neither the first nor the last character is white space. *)
Definition trimmed {U : UnicodeData} (t : str) : bool :=
  no_leading_space t && no_leading_space (rev t).

(** A call is sound when the text given to [say] is clean and the rate
    read from the control or given to the engine is in range. *)
Definition event_sound {U : UnicodeData} (c : thread_id * event) : bool :=
  match snd c with
  | E_say t => clean_text t
  | E_set_rate r | E_slider_get r => rate_in_range r
  | _ => true
  end.

Definition utterance_sound {U : UnicodeData} (u : str * Z) : bool :=
  clean_text (fst u) && rate_in_range (snd u).

Definition command_sound {U : UnicodeData} (c : command) : bool :=
  match c with
  | Set_rate r => rate_in_range r
  | Say t => clean_text t
  end.

Definition engine_sound {U : UnicodeData} (e : engine_state) : bool :=
  rate_in_range (rate e) && forallb command_sound (pending e) &&
  forallb utterance_sound (spoken e).

(** The closure of a thread holds a non-empty trimmed text, and the
    clean text it carries is the sanitized closure text. *)
Definition worker_sound {U : UnicodeData} (w : worker) : Prop :=
  raw_text w <> [] /\ trimmed (raw_text w) = true /\
  match at_ w with
  | At_setProperty c | At_say c => c = sanitize (raw_text w)
  | _ => True
  end.

Definition sound {U : UnicodeData} (s : state) : Prop :=
  rate_in_range (rate_slider s) = true /\
  match engine s with
  | Some e => engine_sound e = true
  | None => True
  end /\
  Forall worker_sound (threads s) /\
  forallb event_sound (trace s) = true.

(** The statements a thread has left at most, the handler included. *)
Definition remaining (p : pc) : nat :=
  match p with
  | At_sanitize => 6
  | At_setProperty _ => 5
  | At_say _ => 4
  | At_runAndWait => 3
  | At_except _ => 2
  | At_finally => 1
  end.

(** Calls into the speech engine. *)
Definition engine_event (e : event) : bool :=
  match e with
  | E_set_rate _ | E_say _ | E_runAndWait => true
  | _ => false
  end.

(** A step of the thread [n]. *)
Definition thread_step_of (n : nat) (l : label) : bool :=
  match l with
  | Thread_step m _ => Nat.eqb m n
  | _ => false
  end.

(** Anything but the main loop running a queued callback. *)
Definition before_reset (l : label) : bool :=
  match l with
  | Mainloop_after => false
  | _ => true
  end.

(** No call into the engine is made by the main thread. *)
Definition engine_off_main (tr : trace_t) : bool :=
  forallb (fun c => implb (engine_event (snd c)) (negb (on_main_thread c))) tr.

(** ** The order of the calls within a run *)

(** The last call a run has made. *)
Inductive call_phase :=
| K_none
| K_started
| K_rate_read (r : Z)
| K_rate_set
| K_said
| K_ran
| K_printed.

(** The calls of [speak_task] in the order of its statements: the rate
    is read, then given to the engine as read, then [say], then
    [runAndWait]; one [print] may follow a call of the [try] block; the
    hand-off comes last.  Other calls do not count. *)
Definition next_call (q : call_phase) (e : event) : option call_phase :=
  match e with
  | E_thread_start _ =>
      match q with K_none => Some K_started | _ => None end
  | E_slider_get r =>
      match q with K_started => Some (K_rate_read r) | _ => None end
  | E_set_rate r =>
      match q with
      | K_rate_read r' => if Z.eqb r r' then Some K_rate_set else None
      | _ => None
      end
  | E_say _ =>
      match q with K_rate_set => Some K_said | _ => None end
  | E_runAndWait =>
      match q with K_said => Some K_ran | _ => None end
  | E_print _ =>
      match q with
      | K_rate_set | K_said | K_ran => Some K_printed
      | _ => None
      end
  | E_after_reset_ui =>
      match q with K_ran | K_printed => Some K_none | _ => None end
  | _ => Some q
  end.

Fixpoint call_order (q : call_phase) (tr : trace_t) : option call_phase :=
  match tr with
  | [] => Some q
  | c :: rest =>
      match next_call q (snd c) with
      | Some q' => call_order q' rest
      | None => None
      end
  end.

(** The statement a thread stands at after its last call. *)
Definition pc_at (p : pc) (q : call_phase) : bool :=
  match p, q with
  | (At_sanitize | At_setProperty _), K_started => true
  | At_say _, K_rate_set => true
  | At_runAndWait, K_said => true
  | At_except _, (K_rate_set | K_said | K_ran) => true
  | At_finally, (K_ran | K_printed) => true
  | _, _ => false
  end.

Definition call_phase_of (s : state) (q : call_phase) : Prop :=
  match threads s with
  | [] => q = K_none
  | [w] => pc_at (at_ w) q = true
  | _ :: _ :: _ => False
  end.

Definition ordered_calls (s : state) : Prop :=
  exists q, call_order K_none (trace s) = Some q /\ call_phase_of s q.

(** Closes an [invariant] goal once the state is known field by field:
    [Happ] splits the protocol over the calls just appended, [Htr] is
    the protocol of the trace before the step. *)
Ltac close_invariant Happ Htr :=
  unfold invariant, phase_of; cbn; split; [discriminate |];
  eexists; split; [reflexivity |];
  rewrite ?Happ, Htr; cbn; rewrite ?Nat.eqb_refl; reflexivity.

(** * Properties of the sanitizer *)

Section SanitizerFacts.
Context {U : UnicodeData}.

Lemma ascii_isalnum_below_128 c :
  ascii_isalnum c = true -> (c <? 128)%N = true.
Proof.
  unfold ascii_isalnum, between. intros H.
  apply N.ltb_lt.
  repeat (apply orb_true_iff in H; destruct H as [H | H]);
    apply andb_true_iff in H; destruct H as [_ H];
    apply N.leb_le in H; lia.
Qed.

(** The set [[^\w\s\.,!?\-]] matches exactly what [kept_char] rejects. *)
Lemma sanitize_pattern_matches c :
  charset_matches sanitize_pattern c = negb (kept_char c).
Proof.
  unfold charset_matches, kept_char, spec_char, punctuation_mark; simpl.
  unfold SRE_UNI_IS_WORD, Py_UNICODE_ISALNUM, Py_UNICODE_ISSPACE.
  rewrite N.leb_antisym.
  destruct (c <? 128)%N eqn:Hc; simpl.
  - destruct (ascii_isalnum c), (ascii_whitespace c), (c =? 95)%N,
      (c =? 46)%N, (c =? 44)%N, (c =? 33)%N, (c =? 63)%N, (c =? 45)%N;
      reflexivity.
  - assert (Ha : ascii_isalnum c = false).
    { destruct (ascii_isalnum c) eqn:E; [| reflexivity].
      apply ascii_isalnum_below_128 in E. congruence. }
    rewrite Ha.
    destruct (uni_isalnum c), (uni_isspace c), (c =? 95)%N,
      (c =? 46)%N, (c =? 44)%N, (c =? 33)%N, (c =? 63)%N, (c =? 45)%N;
      reflexivity.
Qed.

(** Substituting the empty string deletes the matches. *)
Lemma re_sub_empty p text :
  re_sub p [] text = filter (fun c => negb (charset_matches p c)) text.
Proof.
  induction text as [| c rest IH]; simpl; [reflexivity |].
  destruct (charset_matches p c); simpl; now rewrite IH.
Qed.

Lemma sanitize_filter text : sanitize text = filter kept_char text.
Proof.
  unfold sanitize. rewrite re_sub_empty.
  apply filter_ext. intros c.
  now rewrite sanitize_pattern_matches, negb_involutive.
Qed.

Lemma filter_subsequence {A} (f : A -> bool) l :
  subsequence (filter f l) l.
Proof.
  induction l as [| x l IH]; simpl.
  - constructor.
  - destruct (f x); now constructor.
Qed.

Lemma subsequence_length {A} (l1 l2 : list A) :
  subsequence l1 l2 -> (length l1 <= length l2)%nat.
Proof. induction 1; simpl; lia. Qed.

(** C1, as the code has it: [sanitize] keeps exactly the characters of
    [kept_char], so every character of its result is an ASCII letter
    or digit, white space, one of [. , ! ? -], the underscore, or an
    alphanumeric code point beyond ASCII. *)
Theorem sanitize_keeps_word_space_marks (s : str) :
  sanitize s = filter kept_char s /\
  Forall (fun c => kept_char c = true) (sanitize s).
Proof.
  split; [apply sanitize_filter |].
  rewrite sanitize_filter. apply Forall_forall.
  intros c Hc. now apply filter_In in Hc.
Qed.

(** C7: sanitizing twice is sanitizing once. *)
Theorem sanitize_idempotent (s : str) :
  sanitize (sanitize s) = sanitize s.
Proof.
  rewrite !sanitize_filter.
  induction s as [| c rest IH]; simpl; [reflexivity |].
  destruct (kept_char c) eqn:Hc; simpl; [| exact IH].
  now rewrite Hc, IH.
Qed.

(** C8: the three examples of the specification, whatever the Unicode
    database says beyond ASCII. *)
Theorem sanitize_examples :
  sanitize (py "") = py "" /\
  sanitize (py "###") = py "" /\
  sanitize (py "Log@123: failed!") = py "Log123 failed!".
Proof. repeat split; reflexivity. Qed.

(** C10: the result is the input with characters deleted, in the
    original order, and is no longer than the input. *)
Theorem sanitize_subsequence (s : str) :
  subsequence (sanitize s) s /\ (length (sanitize s) <= length s)%nat.
Proof.
  assert (H : subsequence (sanitize s) s).
  { rewrite sanitize_filter. apply filter_subsequence. }
  split; [exact H | now apply subsequence_length].
Qed.

End SanitizerFacts.

(** C1, as the specification words it, fails: the underscore and the
    letter e-acute (code point 233) pass the sanitizer and are outside
    [[A-Za-z0-9\s.,!?-]]. *)
Lemma sanitize_keeps_underscore :
  sanitize (U := latin1) [95; 233]%N = [95; 233]%N /\
  spec_char (U := latin1) 95 = false /\
  spec_char (U := latin1) 233 = false.
Proof. repeat split; reflexivity. Qed.

(** * Properties of the coordinator *)

Lemma protocol_app p tr tr' :
  protocol p (tr ++ tr') =
  match protocol p tr with
  | Some q => protocol q tr'
  | None => None
  end.
Proof.
  revert p. induction tr as [| c tr IH]; intros p; simpl; [reflexivity |].
  destruct (advance p c); [apply IH | reflexivity].
Qed.

Lemma protocol_foreground_only p tr q :
  protocol p tr = Some q -> foreground_only tr = true.
Proof.
  revert p. induction tr as [| [th e] tr IH]; intros p H; [reflexivity |].
  cbn [protocol] in H.
  destruct (advance p (th, e)) as [p' |] eqn:Ha; [| discriminate].
  unfold foreground_only in *. cbn [forallb].
  rewrite (IH _ H), andb_true_r.
  destruct th, e; try reflexivity; simpl in Ha; discriminate.
Qed.

Lemma protocol_alternate p tr q :
  protocol p tr = Some q ->
  alternate (expects_started p) (notifications tr) = true.
Proof.
  revert p. induction tr as [| [th e] tr IH]; intros p H; [reflexivity |].
  cbn [protocol] in H.
  destruct (advance p (th, e)) as [p' |] eqn:Ha; [| discriminate].
  specialize (IH _ H).
  cbn [notifications]. unfold notification_of. cbn [snd].
  destruct th, e; simpl in Ha; try discriminate;
    repeat match type of Ha with
           | context [match ?x with _ => _ end] => destruct x; try discriminate
           end;
    inversion Ha; subst; simpl in *; try exact IH; try discriminate.
Qed.

Lemma init_success : __init__ Returns Returns = Constructed initial_state.
Proof. reflexivity. Qed.

Lemma invariant_initial : invariant initial_state.
Proof.
  split; [discriminate |]. exists P_idle. split; reflexivity.
Qed.

Section CoordinatorFacts.
Context {U : UnicodeData}.

Lemma invariant_step l s : invariant s -> invariant (step l s).
Proof.
  intros [Heng [p [Hp Htr]]].
  destruct s as [ta rs b st eng ws q sp tr].
  unfold phase_of in Hp. cbn in Hp, Htr, Heng.
  destruct eng as [eng |]; [| congruence].
  destruct b, st, ws as [| w [| w' ws]], q as [| [] [| c q]];
    try discriminate; inversion Hp; subst p; clear Hp;
    destruct l as [text | r | | | n o]; cbn;
    try (close_invariant protocol_app Htr).
  - (* the click that starts a run, or is refused for a blank buffer *)
    unfold run_audio; cbn.
    destruct (strip (ta ++ [10%N])); close_invariant protocol_app Htr.
  - (* the only thread moves on *)
    destruct w as [t raw at_w]; cbn in Htr |- *.
    destruct (Nat.eqb t n) eqn:Hn; [| close_invariant protocol_app Htr].
    apply Nat.eqb_eq in Hn; subst n.
    unfold speak_task, engine_call; cbn.
    destruct at_w, o; cbn; rewrite ?Nat.eqb_refl; close_invariant protocol_app Htr.
Qed.

Lemma reachable_invariant s : reachable s -> invariant s.
Proof.
  induction 1 as [s0 H | l s _ IH].
  - rewrite init_success in H. inversion H. apply invariant_initial.
  - now apply invariant_step.
Qed.

End CoordinatorFacts.

Section Runs.
Context {U : UnicodeData}.

Lemma reachable_initial : reachable initial_state.
Proof. apply reachable_init, init_success. Qed.

Lemma reachable_run ls s : reachable s -> reachable (run ls s).
Proof.
  revert s. induction ls as [| l ls IH]; intros s H; [exact H |].
  apply IH. now constructor.
Qed.

Lemma run_app ls ls' s : run (ls ++ ls') s = run ls' (run ls s).
Proof.
  revert s. induction ls as [| l ls IH]; intros s; cbn; [reflexivity |].
  apply IH.
Qed.

Lemma invariant_cases s :
  invariant s ->
  idle s \/ (exists w, running_with w s) \/ handed_off s.
Proof.
  intros [Heng [p [Hp _]]]. unfold phase_of in Hp.
  unfold idle, running_with, handed_off.
  destruct (run_btn s), (status s), (threads s) as [| w [| w' ws]],
    (after_queue s) as [| [] [| c q]]; try discriminate.
  - left. repeat split.
  - right; right. repeat split.
  - right; left. exists w. repeat split. exact Heng.
Qed.

Lemma reachable_running s w :
  reachable s -> threads s = [w] -> running_with w s.
Proof.
  intros Hr Hw.
  destruct (invariant_cases _ (reachable_invariant _ Hr))
    as [Hi | [[w' Hrun] | Hh]].
  - destruct Hi as (_ & _ & Ht & _). congruence.
  - destruct Hrun as (Hb & Hs & He & Ht & Hq).
    assert (w' = w) by congruence. subst w'. repeat split; assumption.
  - destruct Hh as (_ & _ & Ht & _). congruence.
Qed.

(** While the button is disabled the operator reaches the buffer and
    the rate control, nothing else. *)
Lemma operator_same_run l s :
  run_btn s = DISABLED -> operator l = true -> same_run s (step l s).
Proof.
  intros Hb Hl. destruct l; try discriminate; cbn.
  - repeat split.
  - repeat split.
  - rewrite Hb. repeat split.
Qed.

Lemma operators_same_run ops s :
  run_btn s = DISABLED ->
  forallb operator ops = true -> same_run s (run ops s).
Proof.
  revert s. induction ops as [| l ops IH]; intros s Hb Hops; cbn.
  - repeat split.
  - cbn in Hops. apply andb_true_iff in Hops. destruct Hops as [Hl Hrest].
    destruct (operator_same_run l s Hb Hl) as (H1 & H2 & H3 & H4 & H5 & H6 & H7).
    assert (Hb' : run_btn (step l s) = DISABLED) by congruence.
    destruct (IH _ Hb' Hrest) as (K1 & K2 & K3 & K4 & K5 & K6 & K7).
    repeat split; congruence.
Qed.

Lemma same_run_running w s s' :
  same_run s s' -> running_with w s -> running_with w s'.
Proof.
  intros (H1 & H2 & H3 & H4 & H5 & H6 & H7) (Hb & Hs & He & Ht & Hq).
  repeat split; congruence.
Qed.

Lemma same_run_handed_off s s' :
  same_run s s' -> handed_off s -> handed_off s'.
Proof.
  intros (H1 & H2 & H3 & H4 & H5 & H6 & H7) (Hb & Hs & Ht & Hq).
  repeat split; congruence.
Qed.

(** A backend call of the [try] block that raises takes the thread
    to the handler. *)
Lemma raise_is_caught w s e :
  running_with w s ->
  (exists c, at_ w = At_say c) \/ at_ w = At_runAndWait ->
  running_with (move_to (At_except e) w)
    (step (Thread_step (tid w) (Raises e)) s).
Proof.
  intros (Hb & Hs & He & Ht & Hq) Hat.
  unfold step. rewrite Ht. cbn. rewrite Nat.eqb_refl.
  unfold speak_task, engine_call.
  destruct (engine s) as [eng |] eqn:Heng; [| congruence].
  destruct Hat as [[c Hat] | Hat]; rewrite Hat; cbn; rewrite ?Heng; cbn;
    rewrite ?Ht; cbn; rewrite Nat.eqb_refl;
    repeat split; cbn; try assumption; congruence.
Qed.

Lemma handler_prints w s e o :
  running_with w s -> at_ w = At_except e ->
  let s' := step (Thread_step (tid w) o) s in
  running_with (move_to At_finally w) s' /\
  trace s' = trace s ++ [(WorkerThread (tid w), E_print e)].
Proof.
  intros (Hb & Hs & He & Ht & Hq) Hat. cbn zeta.
  unfold step. rewrite Ht. cbn. rewrite Nat.eqb_refl.
  unfold speak_task. rewrite Hat. cbn. rewrite Ht. cbn.
  rewrite Nat.eqb_refl.
  repeat split; cbn; assumption.
Qed.

Lemma finally_hands_off w s o :
  running_with w s -> at_ w = At_finally ->
  let s' := step (Thread_step (tid w) o) s in
  handed_off s' /\
  trace s' = trace s ++ [(WorkerThread (tid w), E_after_reset_ui)].
Proof.
  intros (Hb & Hs & He & Ht & Hq) Hat. cbn zeta.
  unfold step. rewrite Ht. cbn. rewrite Nat.eqb_refl.
  unfold speak_task. rewrite Hat. cbn. rewrite Ht, Hq. cbn.
  rewrite Nat.eqb_refl.
  repeat split; cbn; assumption.
Qed.

(** The statements of the [try] block when the backend call returns. *)
Lemma setProperty_returns w s c :
  running_with w s -> at_ w = At_setProperty c ->
  let s' := step (Thread_step (tid w) Returns) s in
  running_with (move_to (At_say c) w) s' /\
  engine s' = option_map (set_rate (rate_slider s)) (engine s) /\
  trace s' = trace s ++ [(WorkerThread (tid w), E_slider_get (rate_slider s));
                         (WorkerThread (tid w), E_set_rate (rate_slider s))].
Proof.
  intros (Hb & Hs & He & Ht & Hq) Hat. cbn zeta.
  unfold step. rewrite Ht. cbn. rewrite Nat.eqb_refl.
  unfold speak_task, engine_call. rewrite Hat. cbn.
  destruct (engine s) as [eng |]; [| congruence]. cbn.
  rewrite Ht. cbn. rewrite Nat.eqb_refl.
  repeat split; cbn; try assumption; try discriminate.
  now rewrite <- app_assoc.
Qed.

Lemma say_returns w s c :
  running_with w s -> at_ w = At_say c ->
  let s' := step (Thread_step (tid w) Returns) s in
  running_with (move_to At_runAndWait w) s' /\
  engine s' = option_map (say c) (engine s).
Proof.
  intros (Hb & Hs & He & Ht & Hq) Hat. cbn zeta.
  unfold step. rewrite Ht. cbn. rewrite Nat.eqb_refl.
  unfold speak_task, engine_call. rewrite Hat. cbn.
  destruct (engine s) as [eng |]; [| congruence]. cbn.
  rewrite Ht. cbn. rewrite Nat.eqb_refl.
  repeat split; cbn; try assumption; discriminate.
Qed.

Lemma runAndWait_returns w s :
  running_with w s -> at_ w = At_runAndWait ->
  let s' := step (Thread_step (tid w) Returns) s in
  running_with (move_to At_finally w) s' /\
  engine s' = option_map runAndWait (engine s).
Proof.
  intros (Hb & Hs & He & Ht & Hq) Hat. cbn zeta.
  unfold step. rewrite Ht. cbn. rewrite Nat.eqb_refl.
  unfold speak_task, engine_call. rewrite Hat. cbn.
  destruct (engine s) as [eng |]; [| congruence]. cbn.
  rewrite Ht. cbn. rewrite Nat.eqb_refl.
  repeat split; cbn; try assumption; discriminate.
Qed.

Lemma mainloop_resets s :
  handed_off s ->
  let s' := step Mainloop_after s in
  idle s' /\
  trace s' = trace s ++ [(MainThread, E_btn_config NORMAL);
                         (MainThread, E_status_config SYSTEM_READY)].
Proof.
  intros (Hb & Hs & Ht & Hq). cbn zeta.
  unfold step. rewrite Hq. cbn.
  repeat split; cbn; try assumption.
  now rewrite <- app_assoc.
Qed.

Lemma idle_submit_starts s (text : str) r :
  idle s -> strip (text ++ [10%N]) <> [] ->
  coordinator_state (Submit text r s) = RUNNING /\
  threads (Submit text r s) =
    [{| tid := spawned s; raw_text := strip (text ++ [10%N]);
        at_ := At_sanitize |}].
Proof.
  intros (Hb & Hs & Ht & Hq) Hraw.
  unfold Submit, coordinator_state. cbn. rewrite Hb.
  unfold run_audio, text_area_get. cbn.
  destruct (strip (text ++ [10%N])) as [| c raw]; [congruence |].
  cbn. rewrite Ht. split; reflexivity.
Qed.

End Runs.

Section Strip.
Context {U : UnicodeData}.

Lemma lstrip_nil_iff s :
  lstrip s = [] <-> forallb Py_UNICODE_ISSPACE s = true.
Proof.
  induction s as [| c s IH]; cbn; [tauto |].
  destruct (Py_UNICODE_ISSPACE c); cbn; [exact IH |].
  split; discriminate.
Qed.

Lemma lstrip_head s c rest :
  lstrip s = c :: rest -> Py_UNICODE_ISSPACE c = false.
Proof.
  induction s as [| d s IH]; cbn; [discriminate |].
  destruct (Py_UNICODE_ISSPACE d) eqn:Hd; [exact IH |].
  intros H. inversion H; subst. exact Hd.
Qed.

Lemma forallb_rev {A} (f : A -> bool) l :
  forallb f (rev l) = forallb f l.
Proof.
  induction l as [| x l IH]; cbn; [reflexivity |].
  rewrite forallb_app, IH. cbn. rewrite andb_true_r. apply andb_comm.
Qed.

(** The trimmed text is empty exactly when the text is empty or all
    white space. *)
Lemma strip_nil_iff s :
  strip s = [] <-> forallb Py_UNICODE_ISSPACE s = true.
Proof.
  unfold strip, rstrip. split.
  - intros H.
    assert (Hl : lstrip (rev (lstrip s)) = []).
    { destruct (lstrip (rev (lstrip s))) as [| x l] eqn:E; [reflexivity |].
      cbn in H. now destruct (rev l). }
    apply lstrip_nil_iff in Hl. rewrite forallb_rev in Hl.
    destruct (lstrip s) as [| c rest] eqn:E.
    + now apply lstrip_nil_iff.
    + apply lstrip_head in E. cbn in Hl. rewrite E in Hl. discriminate.
  - intros H. apply lstrip_nil_iff in H. now rewrite H.
Qed.

Lemma strip_with_newline (text : str) :
  strip text = [] -> strip (text ++ [10%N]) = [].
Proof.
  rewrite !strip_nil_iff, forallb_app. intros H. now rewrite H.
Qed.

End Strip.

Section CoordinatorClaims.
Context {U : UnicodeData}.

(** [run_audio] itself has no guard against a run in progress: called
    with a non-blank buffer it starts a thread whatever the state.  Only
    the disabled button keeps it from being called. *)
Lemma run_audio_has_no_busy_guard s :
  strip (text_area_get s) <> [] ->
  length (threads (run_audio s)) = S (length (threads s)).
Proof.
  intros Hraw. unfold run_audio.
  destruct (strip (text_area_get s)); [congruence |].
  cbn. rewrite length_app. cbn. lia.
Qed.

(** C2: single flight.  In every state the application can reach
    there is at most one [speak_task] thread, so no two runs of the
    engine overlap; while a thread lives the coordinator is RUNNING
    (the trigger is disabled); and while it is RUNNING a click, and
    so a Submit, changes nothing and starts no thread.  The program
    has no busy error: the disabled button is the only guard. *)
Theorem single_flight s :
  reachable s ->
  (length (threads s) <= 1)%nat /\
  (threads s <> [] -> coordinator_state s = RUNNING) /\
  (coordinator_state s = RUNNING ->
     step Operator_click s = s /\
     forall text r,
       threads (Submit text r s) = threads s /\
       spawned (Submit text r s) = spawned s /\
       trace (Submit text r s) = trace s).
Proof.
  intros Hr. unfold coordinator_state.
  destruct (invariant_cases _ (reachable_invariant _ Hr))
    as [Hi | [[w Hrun] | Hh]].
  - destruct Hi as (Hb & _ & Ht & _). rewrite Hb, Ht. cbn.
    repeat split; try lia; congruence.
  - destruct Hrun as (Hb & _ & _ & Ht & _). rewrite Ht. cbn.
    unfold Submit. cbn. rewrite Hb. cbn. repeat split; try lia; assumption.
  - destruct Hh as (Hb & _ & Ht & _). rewrite Ht. cbn.
    unfold Submit. cbn. rewrite Hb. cbn. repeat split; try lia; assumption.
Qed.

(** C3: a backend exception during Speak ([say] or [runAndWait]) takes
    the thread to its handler, which prints it; the [finally] clause
    hands [reset_ui] to the main loop, which re-enables the trigger
    on the main thread; the coordinator is IDLE again and the next
    Submit of a non-blank text starts a run.  The operator may edit,
    slide and click in between. *)
Theorem speak_failure_returns_to_idle s w e o2 o3 ops1 ops2 ops3 :
  reachable s ->
  threads s = [w] ->
  (exists c, at_ w = At_say c) \/ at_ w = At_runAndWait ->
  forallb operator ops1 = true ->
  forallb operator ops2 = true ->
  forallb operator ops3 = true ->
  let n := tid w in
  let s1 := step (Thread_step n (Raises e)) s in
  let s2 := step (Thread_step n o2) (run ops1 s1) in
  let s3 := step (Thread_step n o3) (run ops2 s2) in
  let s4 := step Mainloop_after (run ops3 s3) in
  threads s1 = [move_to (At_except e) w] /\
  In (WorkerThread n, E_print e) (trace s2) /\
  handed_off s3 /\
  trace s4 = trace s3 ++ [(MainThread, E_btn_config NORMAL);
                          (MainThread, E_status_config SYSTEM_READY)] /\
  idle s4 /\
  coordinator_state s4 = IDLE /\
  forall (text : str) r,
    strip (text ++ [10%N]) <> [] ->
    coordinator_state (Submit text r s4) = RUNNING /\
    threads (Submit text r s4) =
      [{| tid := spawned s4; raw_text := strip (text ++ [10%N]);
          at_ := At_sanitize |}].
Proof.
  intros Hr Hw Hat H1 H2 H3 n s1 s2 s3 s4.
  pose proof (reachable_running _ _ Hr Hw) as R0.
  pose proof (raise_is_caught _ _ e R0 Hat) as R1. fold n s1 in R1.
  assert (R1' : running_with (move_to (At_except e) w) (run ops1 s1)).
  { eapply same_run_running; [| exact R1].
    apply operators_same_run; [apply R1 | exact H1]. }
  destruct (handler_prints _ _ e o2 R1' eq_refl) as [R2 T2].
  change (tid (move_to (At_except e) w)) with n in R2, T2.
  fold s2 in R2, T2.
  assert (R2' : running_with (move_to At_finally (move_to (At_except e) w))
                  (run ops2 s2)).
  { eapply same_run_running; [| exact R2].
    apply operators_same_run; [apply R2 | exact H2]. }
  destruct (finally_hands_off _ _ o3 R2' eq_refl) as [R3 T3].
  change (tid (move_to At_finally (move_to (At_except e) w))) with n in R3, T3.
  fold s3 in R3, T3.
  assert (S3 : same_run s3 (run ops3 s3)).
  { apply operators_same_run; [apply R3 | exact H3]. }
  destruct (mainloop_resets _ (same_run_handed_off _ _ S3 R3)) as [R4 T4].
  fold s4 in R4, T4.
  split; [apply R1 |].
  split; [rewrite T2; apply in_or_app; right; now left |].
  split; [exact R3 |].
  split.
  { rewrite T4. f_equal. apply S3. }
  split; [exact R4 |].
  split.
  { unfold coordinator_state. destruct R4 as (Hb & _). now rewrite Hb. }
  intros text r Hraw. now apply idle_submit_starts.
Qed.

(** C4, on the code: when the engine fails to start, the constructor
    shows the error and destroys the root window, and then still calls
    [ui_init] on the object; the first widget is refused by Tk and the
    [TclError] leaves the constructor uncaught. *)
Theorem init_failure_runs_ui_init e o :
  let after_failure :=
    Uncaught TclError
      [(MainThread, E_showerror "Kernel Error" ("TTS Engine failed: " ++ e)%string);
       (MainThread, E_root_destroy);
       (MainThread, E_ui_init)] in
  __init__ (Raises e) o = after_failure /\
  __init__ Returns (Raises e) = after_failure.
Proof. split; reflexivity. Qed.

(** C5: a Submit of an empty or white-space-only text, made while the
    coordinator is IDLE, shows the empty-buffer warning and returns:
    the coordinator stays IDLE and no thread is started; apart from
    the buffer that holds it, any blank text leaves the same state as
    the empty text. *)
Theorem blank_submit_rejected s (text : str) r :
  coordinator_state s = IDLE ->
  strip text = [] ->
  let s' := Submit text r s in
  s' = log MainThread empty_buffer_warning
         (set_rate_slider (scale_clamp r) (set_text_area text s)) /\
  coordinator_state s' = IDLE /\
  threads s' = threads s /\
  spawned s' = spawned s /\
  s' = set_text_area text (Submit [] r s).
Proof.
  intros Hidle Hblank s'.
  assert (Hb : run_btn s = NORMAL).
  { unfold coordinator_state in Hidle. now destruct (run_btn s). }
  assert (E : forall t : str, strip t = [] ->
              Submit t r s = log MainThread empty_buffer_warning
                (set_rate_slider (scale_clamp r) (set_text_area t s))).
  { intros t Ht. unfold Submit. cbn. rewrite Hb.
    unfold run_audio, text_area_get. cbn.
    now rewrite (strip_with_newline t Ht). }
  subst s'. rewrite (E text Hblank).
  rewrite (E [] (proj2 (strip_nil_iff []) eq_refl)).
  unfold coordinator_state. cbn. rewrite Hb. repeat split.
Qed.

(** C6: in every reachable state the calls made so far follow the
    protocol of a run: the trigger is disabled and the in-progress
    status shown before the thread starts, the thread's calls lie
    between its start and its [root.after] hand-off, and the trigger
    is re-enabled and the ready status restored only after that
    hand-off.  Hence every widget is configured by the main thread,
    and run-started and run-finished alternate, started first. *)
Theorem notifications_in_order s :
  reachable s ->
  (exists p, phase_of s = Some p /\ protocol P_idle (trace s) = Some p) /\
  foreground_only (trace s) = true /\
  alternate true (notifications (trace s)) = true.
Proof.
  intros Hr.
  destruct (reachable_invariant _ Hr) as [_ [p [Hp Htr]]].
  split; [exists p; now split |].
  split.
  - eapply protocol_foreground_only; exact Htr.
  - exact (protocol_alternate _ _ _ Htr).
Qed.

(** The run loop over what was queued before, then the rate and the
    text of this run: the text is spoken last, at that rate. *)
Lemma replay_run_last cs r0 sp r t :
  replay (cs ++ [Set_rate r; Say t]) r0 sp =
  (r, snd (replay cs r0 sp) ++ [(t, r)]).
Proof.
  revert r0 sp. induction cs as [| c cs IH]; intros r0 sp; [reflexivity |].
  destruct c; cbn; apply IH.
Qed.

Lemma runAndWait_configured eng r t :
  runAndWait (say t (set_rate r eng)) =
  {| rate := r; pending := [];
     spoken := snd (replay (pending eng) (rate eng) (spoken eng)) ++ [(t, r)] |}.
Proof.
  unfold runAndWait, say, set_rate. cbn [rate pending spoken].
  rewrite <- app_assoc. cbn [app].
  now rewrite replay_run_last.
Qed.

(** C9, as the code has it: the rate given to the engine is the value
    the rate control holds when the thread executes
    [setProperty('rate', ...)], after sanitizing; whatever the operator
    does from then on, the commands the engine holds stay as they are,
    and when [runAndWait] returns the engine is at that rate and the
    text of the run has been spoken at it, after whatever an earlier
    run had left queued. *)
Theorem rate_read_at_configure s w clean_text ops1 ops2 :
  reachable s ->
  threads s = [w] ->
  at_ w = At_setProperty clean_text ->
  forallb operator ops1 = true ->
  forallb operator ops2 = true ->
  let n := tid w in
  let r := rate_slider s in
  let s1 := step (Thread_step n Returns) s in
  let s2 := step (Thread_step n Returns) (run ops1 s1) in
  let s3 := step (Thread_step n Returns) (run ops2 s2) in
  trace s1 = trace s ++ [(WorkerThread n, E_slider_get r);
                         (WorkerThread n, E_set_rate r)] /\
  engine (run ops1 s1) = engine s1 /\
  engine (run ops2 s2) = engine s2 /\
  engine s3 =
    option_map
      (fun eng =>
         {| rate := r; pending := [];
            spoken := snd (replay (pending eng) (rate eng) (spoken eng))
                      ++ [(clean_text, r)] |})
      (engine s).
Proof.
  intros Hr Hw Hat H1 H2 n r s1 s2 s3.
  pose proof (reachable_running _ _ Hr Hw) as R0.
  destruct (setProperty_returns _ _ _ R0 Hat) as (R1 & E1 & T1).
  fold n r s1 in R1, E1, T1.
  pose proof (operators_same_run ops1 s1 (proj1 R1) H1) as S1.
  destruct (say_returns _ _ clean_text (same_run_running _ _ _ S1 R1) eq_refl)
    as (R2 & E2).
  change (tid (move_to (At_say clean_text) w)) with n in R2, E2.
  fold s2 in R2, E2.
  pose proof (operators_same_run ops2 s2 (proj1 R2) H2) as S2.
  destruct (runAndWait_returns _ _ (same_run_running _ _ _ S2 R2) eq_refl)
    as (R3 & E3).
  change (tid (move_to At_runAndWait (move_to (At_say clean_text) w)))
    with n in R3, E3.
  fold s3 in R3, E3.
  split; [exact T1 |].
  destruct S1 as (_ & _ & K1 & _). destruct S2 as (_ & _ & K2 & _).
  split; [exact K1 |]. split; [exact K2 |].
  rewrite E3, K2, E2, K1, E1.
  destruct (engine s) as [eng |]; [| reflexivity].
  cbn [option_map]. f_equal. apply runAndWait_configured.
Qed.

End CoordinatorClaims.

(** * Concrete runs *)

Section Examples.
Local Existing Instance latin1.

Lemma single_flight_witness :
  reachable submitted /\
  (length (threads submitted) <= 1)%nat /\
  coordinator_state submitted = RUNNING /\
  step Operator_click submitted = submitted.
Proof.
  assert (Hr : reachable submitted)
    by apply reachable_run, reachable_initial.
  destruct (single_flight submitted Hr) as (H1 & H2 & H3).
  assert (Hrun : coordinator_state submitted = RUNNING) by reflexivity.
  destruct (H3 Hrun) as [H4 _].
  repeat split; assumption.
Defined.

Lemma speak_failure_witness :
  let w := {| tid := 0; raw_text := py "Access granted.";
              at_ := At_say (py "Access granted.") |} in
  let after_failure :=
    run [Thread_step 0 (Raises "audio device lost"); Operator_click;
         Thread_step 0 Returns; Operator_slide 250;
         Thread_step 0 Returns; Operator_edit (py "Retry.");
         Mainloop_after] speaking in
  reachable speaking /\ threads speaking = [w] /\
  idle after_failure /\
  threads (Submit (py "Retry.") 250 after_failure) =
    [{| tid := 1; raw_text := py "Retry."; at_ := At_sanitize |}].
Proof.
  intros w after_failure.
  assert (Hr : reachable speaking).
  { apply reachable_step, reachable_run, reachable_run, reachable_initial. }
  pose proof (speak_failure_returns_to_idle speaking w
                "audio device lost" Returns Returns
                [Operator_click] [Operator_slide 250]
                [Operator_edit (py "Retry.")]
                Hr eq_refl (or_introl (ex_intro _ _ eq_refl))
                eq_refl eq_refl eq_refl) as H.
  cbv zeta in H.
  destruct H as (_ & _ & _ & _ & Hidle & _ & Hsubmit).
  split; [exact Hr |]. split; [reflexivity |].
  split; [exact Hidle |].
  destruct (Hsubmit (py "Retry.") 250%Z) as [_ Ht].
  - discriminate.
  - exact Ht.
Defined.

Lemma blank_submit_witness :
  coordinator_state initial_state = IDLE /\
  strip (py "   ") = [] /\
  Submit (py "   ") 200 initial_state =
    set_text_area (py "   ") (Submit (py "") 200 initial_state) /\
  threads (Submit (py "   ") 200 initial_state) = [].
Proof.
  destruct (blank_submit_rejected initial_state (py "   ") 200 eq_refl eq_refl)
    as (_ & _ & Ht & _ & Hsame).
  repeat split; assumption.
Defined.

Lemma notifications_in_order_witness :
  let finished :=
    run [Thread_step 0 Returns; Thread_step 0 Returns;
         Thread_step 0 Returns; Mainloop_after] speaking in
  reachable finished /\
  notifications (trace finished) = [OnRunStarted; OnRunFinished] /\
  foreground_only (trace finished) = true /\
  alternate true (notifications (trace finished)) = true.
Proof.
  intros finished.
  assert (Hr : reachable finished).
  { apply reachable_run, reachable_step, reachable_run, reachable_run,
      reachable_initial. }
  destruct (notifications_in_order finished Hr) as (_ & Hf & Ha).
  split; [exact Hr |]. split; [reflexivity |]. split; assumption.
Defined.

(** C9, as the specification words it, fails: the request is
    submitted with the rate control at 200, the control is moved to
    300 while the thread sanitizes, the thread gives 300 to the engine
    and the text is spoken at 300. *)
Lemma rate_changed_after_submit :
  rate_slider submitted = 200%Z /\
  coordinator_state submitted = RUNNING /\
  In (WorkerThread 0, E_set_rate 300) (trace speaking) /\
  option_map spoken (engine finished) = Some [(py "Access granted.", 300%Z)].
Proof.
  split; [reflexivity |]. split; [reflexivity |].
  split; [| reflexivity].
  cbv. right. right. right. right. right. left. reflexivity.
Qed.

Lemma rate_read_at_configure_witness :
  let w := {| tid := 0; raw_text := py "Access granted.";
              at_ := At_setProperty (py "Access granted.") |} in
  let spoken_at_end :=
    run [Thread_step 0 Returns; Operator_slide 100; Thread_step 0 Returns;
         Operator_slide 400; Thread_step 0 Returns] configuring in
  reachable configuring /\ threads configuring = [w] /\
  rate_slider configuring = 300%Z /\
  engine spoken_at_end =
    Some {| rate := 300; pending := [];
            spoken := [(py "Access granted.", 300%Z)] |}.
Proof.
  intros w spoken_at_end.
  assert (Hr : reachable configuring).
  { apply reachable_run, reachable_run, reachable_initial. }
  destruct (rate_read_at_configure configuring w (py "Access granted.")
              [Operator_slide 100] [Operator_slide 400]
              Hr eq_refl eq_refl eq_refl eq_refl)
    as (_ & _ & _ & Hengine).
  split; [exact Hr |]. split; [reflexivity |]. split; [reflexivity |].
  vm_compute in Hengine. vm_compute. exact Hengine.
Defined.

End Examples.

(** * Further properties of the sanitizer and of [strip] *)

Section MoreStrings.
Context {U : UnicodeData}.

(** [sanitize] works character by character: it distributes over
    concatenation. *)
Theorem sanitize_app (s t : str) :
  sanitize (s ++ t) = sanitize s ++ sanitize t.
Proof.
  rewrite !sanitize_filter.
  induction s as [| c s IH]; cbn; [reflexivity |].
  destruct (kept_char c); cbn; now rewrite IH.
Qed.

Lemma filter_fixed_iff {A} (f : A -> bool) l :
  filter f l = l <-> forallb f l = true.
Proof.
  induction l as [| x l IH]; cbn; [tauto |].
  destruct (f x) eqn:Hx; cbn.
  - rewrite <- IH. split; [intros H; now injection H | intros H; now f_equal].
  - split; [| discriminate]. intros H.
    pose proof (filter_subsequence f l) as Hs.
    apply subsequence_length in Hs. rewrite H in Hs. cbn in Hs. lia.
Qed.

(** The texts [sanitize] leaves alone are exactly the clean ones. *)
Theorem sanitize_fixed_iff (s : str) :
  sanitize s = s <-> clean_text s = true.
Proof. rewrite sanitize_filter. apply filter_fixed_iff. Qed.

Lemma sanitize_clean s : clean_text (sanitize s) = true.
Proof.
  rewrite sanitize_filter. unfold clean_text. apply forallb_forall.
  intros c Hc. now apply filter_In in Hc.
Qed.

Lemma lstrip_spaces a s :
  forallb Py_UNICODE_ISSPACE a = true -> lstrip (a ++ s) = lstrip s.
Proof.
  induction a as [| c a IH]; cbn; [reflexivity |].
  destruct (Py_UNICODE_ISSPACE c); cbn; [exact IH | discriminate].
Qed.

Lemma lstrip_app s b :
  lstrip (s ++ b) =
  if forallb Py_UNICODE_ISSPACE s then lstrip b else lstrip s ++ b.
Proof.
  induction s as [| c s IH]; cbn; [reflexivity |].
  destruct (Py_UNICODE_ISSPACE c); cbn; [exact IH | reflexivity].
Qed.

Lemma rstrip_spaces x b :
  forallb Py_UNICODE_ISSPACE b = true -> rstrip (x ++ b) = rstrip x.
Proof.
  intros Hb. unfold rstrip. rewrite rev_app_distr, lstrip_spaces;
    [reflexivity | now rewrite forallb_rev].
Qed.

(** White space around a text does not change its trimmed form. *)
Lemma strip_surrounded a s b :
  forallb Py_UNICODE_ISSPACE a = true ->
  forallb Py_UNICODE_ISSPACE b = true ->
  strip (a ++ s ++ b) = strip s.
Proof.
  intros Ha Hb. unfold strip.
  rewrite (lstrip_spaces a _ Ha), lstrip_app.
  destruct (forallb Py_UNICODE_ISSPACE s) eqn:Hs.
  - apply lstrip_nil_iff in Hs, Hb. now rewrite Hs, Hb.
  - now apply rstrip_spaces.
Qed.

Lemma lstrip_suffix s :
  exists a, s = a ++ lstrip s /\ forallb Py_UNICODE_ISSPACE a = true.
Proof.
  induction s as [| c s [a [E Ha]]]; cbn.
  - now exists [].
  - destruct (Py_UNICODE_ISSPACE c) eqn:Hc.
    + exists (c :: a). cbn. rewrite Hc, Ha. split; [now f_equal | reflexivity].
    + now exists [].
Qed.

Lemma rstrip_prefix s :
  exists b, s = rstrip s ++ b /\ forallb Py_UNICODE_ISSPACE b = true.
Proof.
  destruct (lstrip_suffix (rev s)) as [a [E Ha]].
  exists (rev a). split.
  - unfold rstrip. rewrite <- rev_app_distr, <- E. now rewrite rev_involutive.
  - now rewrite forallb_rev.
Qed.

(** A text is its trimmed form with white space before and after. *)
Lemma strip_middle s :
  exists a b, s = a ++ strip s ++ b /\
    forallb Py_UNICODE_ISSPACE a = true /\
    forallb Py_UNICODE_ISSPACE b = true.
Proof.
  destruct (lstrip_suffix s) as [a [Ea Ha]].
  destruct (rstrip_prefix (lstrip s)) as [b [Eb Hb]].
  exists a, b. unfold strip. now rewrite <- Eb.
Qed.

Lemma lstrip_no_leading_space s : no_leading_space (lstrip s) = true.
Proof.
  destruct (lstrip s) as [| c rest] eqn:E; [reflexivity |].
  cbn. now rewrite (lstrip_head _ _ _ E).
Qed.

(** The trimmed form starts and ends with a character that is not
    white space (or is empty). *)
Lemma strip_trimmed s : trimmed (strip s) = true.
Proof.
  unfold trimmed, strip. apply andb_true_iff. split.
  - pose proof (lstrip_no_leading_space s) as Hl.
    destruct (rstrip_prefix (lstrip s)) as [b [Eb _]].
    destruct (rstrip (lstrip s)) as [| c t]; [reflexivity |].
    rewrite Eb in Hl. exact Hl.
  - unfold rstrip. rewrite rev_involutive. apply lstrip_no_leading_space.
Qed.

End MoreStrings.

(** * Further properties of the coordinator *)

Section Soundness.
Context {U : UnicodeData}.

Lemma scale_clamp_in_range r : rate_in_range (scale_clamp r) = true.
Proof.
  unfold rate_in_range, scale_clamp.
  apply andb_true_iff. split; apply Z.leb_le; lia.
Qed.

Lemma forallb_snoc {A} (f : A -> bool) l x :
  forallb f (l ++ [x]) = forallb f l && f x.
Proof. rewrite forallb_app. cbn. now rewrite andb_true_r. Qed.

Lemma find_thread_In n ws w :
  find_thread n ws = Some w -> In w ws.
Proof.
  induction ws as [| v ws IH]; cbn; [discriminate |].
  destruct (Nat.eqb (tid v) n).
  - intros H. inversion H. now left.
  - intros H. right. now apply IH.
Qed.

Lemma update_thread_moves (P : worker -> Prop) n p ws w :
  Forall P ws -> find_thread n ws = Some w -> P (move_to p w) ->
  Forall P (update_thread n (Some p) ws).
Proof.
  intros Hws. induction Hws as [| v ws Hv Hws IH]; cbn; [discriminate |].
  destruct (Nat.eqb (tid v) n).
  - intros H Hp. inversion H; subst. now constructor.
  - intros H Hp. constructor; [exact Hv | now apply IH].
Qed.

Lemma update_thread_ends (P : worker -> Prop) n ws :
  Forall P ws -> Forall P (update_thread n None ws).
Proof.
  intros Hws. induction Hws as [| v ws Hv Hws IH]; cbn; [constructor |].
  destruct (Nat.eqb (tid v) n); [exact Hws | now constructor].
Qed.

Lemma engine_sound_set_rate r e :
  rate_in_range r = true -> engine_sound e = true ->
  engine_sound (set_rate r e) = true.
Proof.
  unfold engine_sound. cbn. intros Hr H.
  apply andb_true_iff in H. destruct H as [H Hs].
  apply andb_true_iff in H. destruct H as [Hrate Hq].
  rewrite Hrate, Hs, forallb_snoc, Hq. cbn. now rewrite Hr.
Qed.

Lemma engine_sound_say t e :
  clean_text t = true -> engine_sound e = true ->
  engine_sound (say t e) = true.
Proof.
  unfold engine_sound. cbn. intros Ht H.
  apply andb_true_iff in H. destruct H as [H Hs].
  apply andb_true_iff in H. destruct H as [Hrate Hq].
  rewrite Hrate, Hs, forallb_snoc, Hq. cbn. now rewrite Ht.
Qed.

(** The run loop speaks sound utterances when the commands are sound. *)
Lemma replay_sound cs : forall r sp,
  rate_in_range r = true ->
  forallb command_sound cs = true ->
  forallb utterance_sound sp = true ->
  rate_in_range (fst (replay cs r sp)) = true /\
  forallb utterance_sound (snd (replay cs r sp)) = true.
Proof.
  induction cs as [| c cs IH]; intros r sp Hr Hcs Hsp; [now split |].
  cbn in Hcs. apply andb_true_iff in Hcs. destruct Hcs as [Hc Hcs].
  destruct c as [r' | t]; cbn [replay].
  - now apply IH.
  - assert (Ht : clean_text t = true) by exact Hc.
    apply IH; [exact Hr | exact Hcs |].
    rewrite forallb_snoc, Hsp. unfold utterance_sound. cbn [fst snd].
    now rewrite Ht, Hr.
Qed.

Lemma engine_sound_runAndWait e :
  engine_sound e = true -> engine_sound (runAndWait e) = true.
Proof.
  unfold engine_sound, runAndWait. intros H.
  apply andb_true_iff in H. destruct H as [H Hs].
  apply andb_true_iff in H. destruct H as [Hr Hq].
  destruct (replay_sound (pending e) (rate e) (spoken e) Hr Hq Hs) as [Hr' Hs'].
  destruct (replay (pending e) (rate e) (spoken e)) as [r' sp']. cbn in *.
  now rewrite Hr', Hs'.
Qed.

Lemma utterances_sound cs :
  forallb command_sound cs = true ->
  forallb clean_text (utterances cs) = true.
Proof.
  induction cs as [| c cs IH]; [reflexivity |].
  cbn. intros H. apply andb_true_iff in H. destruct H as [Hc Hcs].
  destruct c as [r | t]; cbn [utterances forallb]; [now apply IH |].
  assert (Ht : clean_text t = true) by exact Hc.
  now rewrite Ht, IH.
Qed.

Lemma sound_initial : sound initial_state.
Proof. repeat split. constructor. Qed.

Lemma sound_step l s : sound s -> sound (step l s).
Proof.
  intros (Hr & He & Hw & Ht). destruct l as [text | r | | | n o]; cbn.
  - repeat split; assumption.
  - split; [apply scale_clamp_in_range |]. repeat split; assumption.
  - destruct (run_btn s); [| repeat split; assumption].
    unfold run_audio.
    destruct (strip (text_area_get s)) as [| c raw] eqn:E.
    + repeat split; cbn; try assumption. now rewrite forallb_snoc, Ht.
    + repeat split; cbn; try assumption.
      * apply Forall_app. split; [exact Hw |].
        constructor; [| constructor].
        repeat split; cbn; [discriminate |].
        rewrite <- E. apply strip_trimmed.
      * now rewrite !forallb_snoc, Ht.
  - destruct (after_queue s) as [| [] q]; [repeat split; assumption |].
    repeat split; cbn; try assumption. now rewrite !forallb_snoc, Ht.
  - destruct (find_thread n (threads s)) as [w |] eqn:F;
      [| repeat split; assumption].
    pose proof (Forall_forall worker_sound (threads s)) as Hall.
    pose proof (proj1 Hall Hw w (find_thread_In _ _ _ F)) as (Hraw & Htrim & Hpc).
    unfold speak_task, engine_call.
    destruct (at_ w) as [| c | c | | e |] eqn:Hat; cbn.
    + repeat split; cbn; try assumption.
      apply update_thread_moves with (w := w); try assumption.
      repeat split; assumption.
    + destruct (engine s) as [eng |] eqn:Heng; [destruct o |]; cbn;
        repeat split; cbn; rewrite ?Heng; try assumption;
        first [ apply engine_sound_set_rate; assumption
              | apply update_thread_moves with (w := w); try assumption;
                repeat split; assumption
              | rewrite !forallb_snoc, Ht; unfold event_sound; cbn;
                now rewrite Hr ].
    + assert (Hc : clean_text c = true) by (rewrite Hpc; apply sanitize_clean).
      destruct (engine s) as [eng |] eqn:Heng; [destruct o |]; cbn;
        repeat split; cbn; rewrite ?Heng; try assumption;
        first [ apply engine_sound_say; assumption
              | apply update_thread_moves with (w := w); try assumption;
                repeat split; assumption
              | rewrite !forallb_snoc, Ht; unfold event_sound; cbn;
                now rewrite Hc ].
    + destruct (engine s) as [eng |] eqn:Heng; [destruct o |]; cbn;
        repeat split; cbn; rewrite ?Heng; try assumption;
        first [ apply engine_sound_runAndWait; assumption
              | apply update_thread_moves with (w := w); try assumption;
                repeat split; assumption
              | now rewrite !forallb_snoc, Ht ].
    + repeat split; cbn; try assumption.
      * apply update_thread_moves with (w := w); try assumption.
        repeat split; assumption.
      * now rewrite !forallb_snoc, Ht.
    + repeat split; cbn; try assumption.
      * now apply update_thread_ends.
      * now rewrite !forallb_snoc, Ht.
Qed.

Lemma reachable_sound s : reachable s -> sound s.
Proof.
  induction 1 as [s0 H | l s _ IH].
  - rewrite init_success in H. inversion H. apply sound_initial.
  - now apply sound_step.
Qed.

End Soundness.

Section MoreClaims.
Context {U : UnicodeData}.

(** White space around the text in the buffer, Tk's final newline
    included, does not change what [Submit] does: the same thread with
    the same text is started, or the same warning shown; only the
    buffer differs. *)
Theorem buffer_whitespace_ignored (a text b : str) r s :
  forallb Py_UNICODE_ISSPACE a = true ->
  forallb Py_UNICODE_ISSPACE b = true ->
  Submit (a ++ text ++ b) r s =
    set_text_area (a ++ text ++ b) (Submit text r s).
Proof.
  intros Ha Hb. unfold Submit. cbn.
  destruct (run_btn s) eqn:Hbtn; [| reflexivity].
  unfold run_audio, text_area_get. cbn.
  assert (E : strip ((a ++ text ++ b) ++ [10%N]) = strip (text ++ [10%N])).
  { rewrite <- !app_assoc.
    rewrite (strip_surrounded a text (b ++ [10%N]) Ha).
    - symmetry. apply (strip_surrounded [] text [10%N]); reflexivity.
    - rewrite forallb_app, Hb. reflexivity. }
  rewrite E. now destruct (strip (text ++ [10%N])).
Qed.

(** The rate control stays within 100 to 400, and so does every rate
    given to the engine, the rate the engine holds and the rate of every
    utterance it has spoken. *)
Theorem rates_stay_in_range s :
  reachable s ->
  rate_in_range (rate_slider s) = true /\
  (forall th r, In (th, E_set_rate r) (trace s) -> rate_in_range r = true) /\
  (forall eng, engine s = Some eng ->
     rate_in_range (rate eng) = true /\
     forall t r, In (t, r) (spoken eng) -> rate_in_range r = true).
Proof.
  intros Hr. destruct (reachable_sound _ Hr) as (Hs & He & _ & Ht).
  split; [exact Hs |]. split.
  - intros th r Hin.
    exact (proj1 (forallb_forall _ _) Ht _ Hin).
  - intros eng Heng. rewrite Heng in He. unfold engine_sound in He.
    apply andb_true_iff in He. destruct He as [He Hsp].
    apply andb_true_iff in He. destruct He as [Hrate _].
    split; [exact Hrate |]. intros t r Hin.
    pose proof (proj1 (forallb_forall _ _) Hsp _ Hin) as Hu.
    unfold utterance_sound in Hu. now apply andb_true_iff in Hu.
Qed.

(** Every text given to [say], every utterance the engine has queued
    and every utterance it has spoken is made of kept characters only:
    nothing reaches the engine that has not been sanitized. *)
Theorem engine_hears_clean_text s :
  reachable s ->
  (forall th t, In (th, E_say t) (trace s) -> clean_text t = true) /\
  (forall eng, engine s = Some eng ->
     (forall t, In t (queue eng) -> clean_text t = true) /\
     (forall t r, In (t, r) (spoken eng) -> clean_text t = true)).
Proof.
  intros Hr. destruct (reachable_sound _ Hr) as (_ & He & _ & Ht).
  split.
  - intros th t Hin.
    exact (proj1 (forallb_forall _ _) Ht _ Hin).
  - intros eng Heng. rewrite Heng in He. unfold engine_sound in He.
    apply andb_true_iff in He. destruct He as [He Hsp].
    apply andb_true_iff in He. destruct He as [_ Hq].
    apply utterances_sound in Hq.
    split.
    + intros t Hin. exact (proj1 (forallb_forall _ _) Hq _ Hin).
    + intros t r Hin.
      pose proof (proj1 (forallb_forall _ _) Hsp _ Hin) as Hu.
      unfold utterance_sound in Hu. now apply andb_true_iff in Hu.
Qed.

(** The text a thread holds is never empty, neither starts nor ends
    with white space, and the clean text the thread carries to the
    engine is that text sanitized. *)
Theorem thread_text_trimmed s w :
  reachable s ->
  In w (threads s) ->
  raw_text w <> [] /\
  trimmed (raw_text w) = true /\
  (forall c, at_ w = At_setProperty c \/ at_ w = At_say c ->
     c = sanitize (raw_text w)).
Proof.
  intros Hr Hin. destruct (reachable_sound _ Hr) as (_ & _ & Hw & _).
  destruct (proj1 (Forall_forall _ _) Hw _ Hin) as (Hraw & Htrim & Hpc).
  split; [exact Hraw |]. split; [exact Htrim |].
  intros c [Hat | Hat]; now rewrite Hat in Hpc.
Qed.

(** The empty-buffer guard looks at the text before it is sanitized: a
    buffer that holds characters but none the sanitizer keeps is
    accepted, and the run it starts has nothing to say. *)
Theorem unspeakable_text_is_accepted s (text : str) r :
  reachable s ->
  coordinator_state s = IDLE ->
  strip text <> [] ->
  sanitize text = [] ->
  coordinator_state (Submit text r s) = RUNNING /\
  exists w, threads (Submit text r s) = [w] /\
    raw_text w = strip text /\ sanitize (raw_text w) = [].
Proof.
  intros Hr Hidle Hraw Hclean.
  assert (E : strip (text ++ [10%N]) = strip text).
  { apply (strip_surrounded [] text [10%N]); reflexivity. }
  assert (Hi : idle s).
  { destruct (invariant_cases _ (reachable_invariant _ Hr))
      as [Hi | [[w (Hb & _)] | (Hb & _)]]; [exact Hi | |];
      unfold coordinator_state in Hidle; rewrite Hb in Hidle; discriminate. }
  destruct (idle_submit_starts s text r Hi) as [Hrun Ht].
  { now rewrite E. }
  split; [exact Hrun |]. eexists. split; [exact Ht |]. cbn.
  split; [exact E |]. rewrite E.
  destruct (strip_middle text) as (a & b & Em & _).
  rewrite Em, !sanitize_filter, !filter_app in Hclean.
  rewrite sanitize_filter.
  apply app_eq_nil in Hclean. destruct Hclean as [_ Hclean].
  now apply app_eq_nil in Hclean.
Qed.

(** The constructor returns only when the engine started and took the
    volume: the application it returns is the initial one, IDLE, with
    the engine set and the rate control at 200. *)
Theorem constructed_is_initialised o_init o_volume s :
  __init__ o_init o_volume = Constructed s ->
  o_init = Returns /\ o_volume = Returns /\ s = initial_state.
Proof.
  destruct o_init, o_volume; cbn; intros H; try discriminate.
  inversion H. repeat split.
Qed.

Lemma protocol_engine_off_main p tr q :
  protocol p tr = Some q -> engine_off_main tr = true.
Proof.
  revert p. induction tr as [| [th e] tr IH]; intros p H; [reflexivity |].
  cbn [protocol] in H.
  destruct (advance p (th, e)) as [p' |] eqn:Ha; [| discriminate].
  unfold engine_off_main in *. cbn [forallb].
  rewrite (IH _ H), andb_true_r.
  destruct th, e; try reflexivity; simpl in Ha; discriminate.
Qed.

(** The engine is driven by worker threads only: no call of
    [setProperty], [say] or [runAndWait] is made by the main thread,
    which therefore never blocks on the backend. *)
Theorem engine_never_called_on_main_thread s :
  reachable s ->
  engine_off_main (trace s) = true /\
  forall th e, In (th, e) (trace s) -> engine_event e = true ->
    exists n, th = WorkerThread n.
Proof.
  intros Hr. destruct (reachable_invariant _ Hr) as [_ [p [_ Htr]]].
  pose proof (protocol_engine_off_main _ _ _ Htr) as H.
  split; [exact H |]. intros th e Hin He.
  pose proof (proj1 (forallb_forall _ _) H _ Hin) as Hc. cbn in Hc.
  rewrite He in Hc. destruct th as [| n]; [discriminate | now exists n].
Qed.

End MoreClaims.

Section WholeRuns.
Context {U : UnicodeData}.

(** A step of the only thread ends it, or leaves it with fewer
    statements to go, however the backend call ends. *)
Lemma thread_step_progress w s o :
  running_with w s ->
  (at_ w = At_finally /\ handed_off (step (Thread_step (tid w) o) s)) \/
  (exists p, running_with (move_to p w) (step (Thread_step (tid w) o) s) /\
             (remaining p < remaining (at_ w))%nat).
Proof.
  intros (Hb & Hs & He & Ht & Hq).
  unfold step. rewrite Ht. cbn. rewrite Nat.eqb_refl.
  unfold speak_task, engine_call.
  destruct (engine s) as [eng |] eqn:Heng; [| congruence].
  destruct (at_ w) as [| c | c | | e |] eqn:Hat; [| destruct o .. | |]; cbn;
    rewrite ?Heng; cbn; rewrite ?Ht, ?Hq; cbn; rewrite Nat.eqb_refl;
    try (left; split; [reflexivity |]; repeat split; cbn; assumption);
    right; eexists;
    (split;
     [unfold running_with; cbn; rewrite ?Heng; repeat split;
      first [assumption | reflexivity | discriminate] |]);
    cbn; lia.
Qed.

Lemma other_thread_step w s m o :
  running_with w s -> Nat.eqb (tid w) m = false ->
  step (Thread_step m o) s = s.
Proof.
  intros (_ & _ & _ & Ht & _) Hm. unfold step. rewrite Ht. cbn.
  now rewrite Hm.
Qed.

Lemma handed_off_thread_step s n o :
  handed_off s -> step (Thread_step n o) s = s.
Proof. intros (_ & _ & Ht & _). unfold step. now rewrite Ht. Qed.

Lemma handed_off_before_reset l s :
  handed_off s -> before_reset l = true -> handed_off (step l s).
Proof.
  intros H Hl. destruct l as [text | r | | | n o]; try discriminate.
  - eapply same_run_handed_off; [| exact H].
    apply operator_same_run; [apply H | reflexivity].
  - eapply same_run_handed_off; [| exact H].
    apply operator_same_run; [apply H | reflexivity].
  - eapply same_run_handed_off; [| exact H].
    apply operator_same_run; [apply H | reflexivity].
  - now rewrite handed_off_thread_step.
Qed.

Lemma handed_off_run ls s :
  handed_off s -> forallb before_reset ls = true -> handed_off (run ls s).
Proof.
  revert s. induction ls as [| l ls IH]; intros s H Hls; cbn; [exact H |].
  cbn in Hls. apply andb_true_iff in Hls. destruct Hls as [Hl Hls].
  apply IH; [now apply handed_off_before_reset | exact Hls].
Qed.

Lemma run_finishes ls : forall w s,
  running_with w s ->
  forallb before_reset ls = true ->
  (remaining (at_ w) <= length (filter (thread_step_of (tid w)) ls))%nat ->
  handed_off (run ls s).
Proof.
  induction ls as [| l ls IH]; intros w s Hrun Hls Hlen.
  - cbn in Hlen. destruct (at_ w); cbn in Hlen; lia.
  - cbn in Hls. apply andb_true_iff in Hls. destruct Hls as [Hl Hls].
    cbn [run]. cbn [filter] in Hlen.
    destruct (thread_step_of (tid w) l) eqn:Hstep.
    + destruct l as [| | | | m o]; try discriminate.
      cbn in Hstep. apply Nat.eqb_eq in Hstep. subst m.
      destruct (thread_step_progress w s o Hrun) as [[_ Hh] | [p [Hrun' Hp]]].
      * now apply handed_off_run.
      * apply (IH (move_to p w)); [exact Hrun' | exact Hls |].
        cbn in Hlen |- *. lia.
    + apply (IH w); [| exact Hls | exact Hlen].
      destruct l as [text | r | | | m o]; try discriminate.
      * eapply same_run_running; [| exact Hrun].
        apply operator_same_run; [apply Hrun | reflexivity].
      * eapply same_run_running; [| exact Hrun].
        apply operator_same_run; [apply Hrun | reflexivity].
      * eapply same_run_running; [| exact Hrun].
        apply operator_same_run; [apply Hrun | reflexivity].
      * cbn in Hstep. rewrite Nat.eqb_sym in Hstep.
        now rewrite (other_thread_step w s m o Hrun Hstep).
Qed.

(** Whatever the backend does at each statement, sanitizing and
    configuring included, and whatever the operator does meanwhile:
    once the thread has taken six steps its [finally] clause has queued
    [reset_ui], and the main loop then returns the coordinator to IDLE.
    The trigger is never left disabled. *)
Theorem trigger_always_re_enabled s w ls :
  reachable s ->
  threads s = [w] ->
  forallb before_reset ls = true ->
  (6 <= length (filter (thread_step_of (tid w)) ls))%nat ->
  handed_off (run ls s) /\
  idle (step Mainloop_after (run ls s)) /\
  coordinator_state (step Mainloop_after (run ls s)) = IDLE.
Proof.
  intros Hr Hw Hls Hlen.
  pose proof (reachable_running _ _ Hr Hw) as Hrun.
  assert (Hh : handed_off (run ls s)).
  { apply (run_finishes ls w s Hrun Hls).
    destruct (at_ w); cbn; lia. }
  split; [exact Hh |].
  destruct (mainloop_resets _ Hh) as [Hi _].
  split; [exact Hi |].
  unfold coordinator_state. destruct Hi as (Hb & _). now rewrite Hb.
Qed.

End WholeRuns.

Section SuccessfulRun.
Context {U : UnicodeData}.

Lemma sanitize_step w s o :
  running_with w s -> at_ w = At_sanitize ->
  running_with (move_to (At_setProperty (sanitize (raw_text w))) w)
    (step (Thread_step (tid w) o) s) /\
  engine (step (Thread_step (tid w) o) s) = engine s.
Proof.
  intros (Hb & Hs & He & Ht & Hq) Hat.
  unfold step. rewrite Ht. cbn. rewrite Nat.eqb_refl.
  unfold speak_task. rewrite Hat. cbn. rewrite Ht. cbn.
  rewrite Nat.eqb_refl. repeat split; cbn; assumption.
Qed.

Lemma finally_keeps_engine w s o :
  running_with w s -> at_ w = At_finally ->
  engine (step (Thread_step (tid w) o) s) = engine s.
Proof.
  intros (Hb & Hs & He & Ht & Hq) Hat.
  unfold step. rewrite Ht. cbn. rewrite Nat.eqb_refl.
  unfold speak_task. rewrite Hat. reflexivity.
Qed.

Lemma mainloop_keeps_engine s :
  engine (step Mainloop_after s) = engine s.
Proof. cbn. now destruct (after_queue s) as [| [] q]. Qed.

Lemma operators_keep_running ops w s :
  running_with w s -> forallb operator ops = true ->
  running_with w (run ops s) /\ engine (run ops s) = engine s.
Proof.
  intros Hrun Hops.
  pose proof (operators_same_run ops s (proj1 Hrun) Hops) as S.
  split; [exact (same_run_running _ _ _ S Hrun) | apply S].
Qed.

(** A run in which every backend call returns: the text in the buffer
    at the click, trimmed and sanitized, is spoken at the rate the
    control holds when the thread configures the engine; it is spoken
    last, after the run loop has executed whatever an earlier failed run
    left queued, at the rates queued with it.  Afterwards the engine is
    at the rate of this run, holds no command, and the coordinator is
    IDLE.  Edits of the buffer and moves of the control after those
    points change nothing. *)
Theorem successful_run s ops1 ops2 ops3 ops4 ops5 ops6 :
  reachable s ->
  coordinator_state s = IDLE ->
  strip (text_area_get s) <> [] ->
  forallb operator ops1 = true ->
  forallb operator ops2 = true ->
  forallb operator ops3 = true ->
  forallb operator ops4 = true ->
  forallb operator ops5 = true ->
  forallb operator ops6 = true ->
  let n := spawned s in
  let clean_text := sanitize (strip (text_area_get s)) in
  let s0 := step Operator_click s in
  let s1 := step (Thread_step n Returns) (run ops1 s0) in
  let r := rate_slider (run ops2 s1) in
  let s2 := step (Thread_step n Returns) (run ops2 s1) in
  let s3 := step (Thread_step n Returns) (run ops3 s2) in
  let s4 := step (Thread_step n Returns) (run ops4 s3) in
  let s5 := step (Thread_step n Returns) (run ops5 s4) in
  let s6 := step Mainloop_after (run ops6 s5) in
  idle s6 /\
  engine s6 =
    option_map
      (fun eng =>
         {| rate := r; pending := [];
            spoken := snd (replay (pending eng) (rate eng) (spoken eng))
                      ++ [(clean_text, r)] |})
      (engine s).
Proof.
  intros Hr Hidle Hraw H1 H2 H3 H4 H5 H6 n clean_text s0 s1 r s2 s3 s4 s5 s6.
  assert (Hb : run_btn s = NORMAL).
  { unfold coordinator_state in Hidle. now destruct (run_btn s). }
  assert (Hi : idle s).
  { destruct (invariant_cases _ (reachable_invariant _ Hr))
      as [Hi | [[w (Hb' & _)] | (Hb' & _)]]; [exact Hi | |]; congruence. }
  set (w0 := {| tid := n; raw_text := strip (text_area_get s);
                at_ := At_sanitize |}).
  assert (T0 : threads s0 = [w0]).
  { subst s0. cbn. rewrite Hb. unfold run_audio.
    destruct (strip (text_area_get s)) as [| c raw] eqn:E; [congruence |].
    cbn. destruct Hi as (_ & _ & Ht & _). now rewrite Ht. }
  assert (E0 : engine s0 = engine s).
  { subst s0. cbn. rewrite Hb. unfold run_audio.
    now destruct (strip (text_area_get s)). }
  assert (R0 : running_with w0 s0).
  { apply reachable_running; [now constructor | exact T0]. }
  destruct (operators_keep_running ops1 _ _ R0 H1) as [R0' K0].
  destruct (sanitize_step w0 _ Returns R0' eq_refl) as [R1 E1].
  change (tid w0) with n in R1, E1. fold s1 in R1, E1.
  change (sanitize (raw_text w0)) with clean_text in R1.
  destruct (operators_keep_running ops2 _ _ R1 H2) as [R1' K1].
  destruct (setProperty_returns _ _ clean_text R1' eq_refl) as (R2 & E2 & _).
  change (tid (move_to (At_setProperty clean_text) w0)) with n in R2, E2.
  fold s2 r in R2, E2.
  destruct (operators_keep_running ops3 _ _ R2 H3) as [R2' K2].
  destruct (say_returns _ _ clean_text R2' eq_refl) as (R3 & E3).
  change (tid (move_to (At_say clean_text)
                 (move_to (At_setProperty clean_text) w0))) with n in R3, E3.
  fold s3 in R3, E3.
  destruct (operators_keep_running ops4 _ _ R3 H4) as [R3' K3].
  destruct (runAndWait_returns _ _ R3' eq_refl) as (R4 & E4).
  match type of R4 with running_with ?w _ => set (w4 := w) in * end.
  change (tid (move_to At_runAndWait
                 (move_to (At_say clean_text)
                    (move_to (At_setProperty clean_text) w0)))) with n in E4, R4.
  fold s4 in R4, E4.
  destruct (operators_keep_running ops5 _ _ R4 H5) as [R4' K4].
  destruct (finally_hands_off _ _ Returns R4' eq_refl) as [R5 _].
  pose proof (finally_keeps_engine _ _ Returns R4' eq_refl) as E5.
  change (tid w4) with n in R5, E5. fold s5 in R5, E5.
  assert (S5 : same_run s5 (run ops6 s5)).
  { apply operators_same_run; [apply R5 | exact H6]. }
  destruct (mainloop_resets _ (same_run_handed_off _ _ S5 R5)) as [R6 _].
  fold s6 in R6.
  split; [exact R6 |].
  subst s6. rewrite mainloop_keeps_engine.
  destruct S5 as (_ & _ & K5 & _).
  rewrite K5, E5, K4, E4, K3, E3, K2, E2, K1, E1, K0, E0.
  destruct (engine s) as [eng |]; [| reflexivity].
  cbn [option_map]. f_equal. apply runAndWait_configured.
Qed.

Lemma call_order_app q tr tr' :
  call_order q (tr ++ tr') =
  match call_order q tr with
  | Some q' => call_order q' tr'
  | None => None
  end.
Proof.
  revert q. induction tr as [| c tr IH]; intros q; cbn; [reflexivity |].
  destruct (next_call q (snd c)); [apply IH | reflexivity].
Qed.

Lemma ordered_calls_initial : ordered_calls initial_state.
Proof. exists K_none. split; reflexivity. Qed.

Lemma ordered_calls_step l s :
  invariant s -> ordered_calls s -> ordered_calls (step l s).
Proof.
  intros [Heng [p [Hp _]]] [q [Hq Hph]].
  destruct s as [ta rs b st eng ws qu sp tr].
  unfold phase_of in Hp. unfold call_phase_of in Hph. cbn in Hp, Hq, Hph, Heng.
  destruct eng as [eng |]; [| congruence].
  destruct b, st, ws as [| w [| w' ws]], qu as [| [] [| c qu]];
    try discriminate; clear Hp;
    destruct l as [text | r | | | n o]; cbn;
    try (exists q; split; assumption).
  - (* the click in the idle state *)
    subst q. unfold run_audio; cbn.
    destruct (strip (ta ++ [10%N]));
      unfold ordered_calls, call_phase_of; cbn;
      rewrite ?call_order_app, Hq; cbn; eexists; split; reflexivity.
  - (* the main loop resets the widgets *)
    subst q. unfold ordered_calls, call_phase_of; cbn.
    rewrite ?call_order_app, Hq; cbn. eexists; split; reflexivity.
  - (* the only thread moves on *)
    destruct w as [t raw at_w]; cbn in Hph |- *.
    destruct (Nat.eqb t n) eqn:Hn; [| exists q; split; assumption].
    unfold speak_task, engine_call; cbn.
    destruct at_w, q; try discriminate Hph; destruct o; cbn;
      unfold ordered_calls, call_phase_of; cbn;
      rewrite ?Hn; cbn;
      rewrite ?call_order_app, Hq; cbn; rewrite ?Z.eqb_refl;
      eexists; split; reflexivity.
Qed.

(** Within every run the calls come in the order of the statements of
    [speak_task]: the rate is read from the control, given to the
    engine as read, then [say], then [runAndWait], each at most once;
    an exception is printed at most once, after a call of the [try]
    block; the hand-off to the main loop comes last and no call of the
    run follows it.  The statement the thread stands at agrees with
    the calls made so far. *)
Theorem calls_follow_statement_order s :
  reachable s ->
  exists q, call_order K_none (trace s) = Some q /\ call_phase_of s q.
Proof.
  induction 1 as [s0 H | l s Hr IH].
  - rewrite init_success in H. inversion H. apply ordered_calls_initial.
  - apply ordered_calls_step; [now apply reachable_invariant | exact IH].
Qed.

End SuccessfulRun.

(** * More concrete runs *)

Section MoreExamples.
Local Existing Instance latin1.

Lemma buffer_whitespace_ignored_witness :
  forallb Py_UNICODE_ISSPACE (py " ") = true /\
  forallb Py_UNICODE_ISSPACE (py "  ") = true /\
  threads (Submit (py " " ++ py "Access granted." ++ py "  ") 200 initial_state) =
    threads (Submit (py "Access granted.") 200 initial_state).
Proof.
  split; [reflexivity |]. split; [reflexivity |].
  now rewrite (buffer_whitespace_ignored (py " ") (py "Access granted.")
                 (py "  ") 200 initial_state eq_refl eq_refl).
Defined.

Lemma rates_stay_in_range_witness :
  reachable finished /\
  rate_in_range (rate_slider finished) = true /\
  option_map spoken (engine finished) = Some [(py "Access granted.", 300%Z)] /\
  rate_in_range 300 = true.
Proof.
  assert (Hr : reachable finished).
  { apply reachable_run, reachable_step, reachable_run, reachable_run,
      reachable_initial. }
  destruct (rates_stay_in_range finished Hr) as (Hs & _ & He).
  destruct (engine finished) as [eng |] eqn:Heng; [| discriminate].
  destruct (He eng eq_refl) as [_ Hsp].
  split; [exact Hr |]. split; [exact Hs |].
  split; [now rewrite <- Heng |].
  apply (Hsp (py "Access granted.")).
  injection Heng as <-. now left.
Defined.

Lemma engine_hears_clean_text_witness :
  reachable finished /\
  In (WorkerThread 0, E_say (py "Access granted.")) (trace finished) /\
  clean_text (py "Access granted.") = true.
Proof.
  assert (Hr : reachable finished).
  { apply reachable_run, reachable_step, reachable_run, reachable_run,
      reachable_initial. }
  assert (Hin : In (WorkerThread 0, E_say (py "Access granted."))
                  (trace finished)).
  { cbv. do 6 right. now left. }
  destruct (engine_hears_clean_text finished Hr) as [Ht _].
  split; [exact Hr |]. split; [exact Hin |]. exact (Ht _ _ Hin).
Defined.

Lemma thread_text_trimmed_witness :
  let w := {| tid := 0; raw_text := py "Access granted.";
              at_ := At_say (py "Access granted.") |} in
  reachable speaking /\ In w (threads speaking) /\
  trimmed (raw_text w) = true /\
  py "Access granted." = sanitize (py "Access granted.").
Proof.
  intros w.
  assert (Hr : reachable speaking).
  { apply reachable_step, reachable_run, reachable_run, reachable_initial. }
  assert (Hin : In w (threads speaking)) by (now left).
  destruct (thread_text_trimmed speaking w Hr Hin) as (_ & Htrim & Hpc).
  split; [exact Hr |]. split; [exact Hin |]. split; [exact Htrim |].
  apply Hpc. now right.
Defined.

Lemma unspeakable_text_witness :
  reachable initial_state /\
  strip (py "###") = py "###" /\ sanitize (py "###") = [] /\
  coordinator_state (Submit (py "###") 200 initial_state) = RUNNING.
Proof.
  destruct (unspeakable_text_is_accepted initial_state (py "###") 200
              reachable_initial eq_refl) as [Hrun _];
    [discriminate | reflexivity |].
  split; [exact reachable_initial |].
  split; [reflexivity |]. split; [reflexivity | exact Hrun].
Defined.

Lemma constructed_is_initialised_witness :
  __init__ Returns Returns = Constructed initial_state /\
  engine initial_state = Some default_engine.
Proof.
  destruct (constructed_is_initialised Returns Returns initial_state eq_refl)
    as (_ & _ & _).
  split; reflexivity.
Defined.

Lemma engine_never_called_on_main_thread_witness :
  reachable finished /\ engine_off_main (trace finished) = true.
Proof.
  assert (Hr : reachable finished).
  { apply reachable_run, reachable_step, reachable_run, reachable_run,
      reachable_initial. }
  destruct (engine_never_called_on_main_thread finished Hr) as [H _].
  split; assumption.
Defined.

Lemma trigger_always_re_enabled_witness :
  let w := {| tid := 0; raw_text := py "Access granted.";
              at_ := At_sanitize |} in
  let ls := [Thread_step 0 Returns; Operator_slide 250;
             Thread_step 0 (Raises "no audio device"); Thread_step 0 Returns;
             Operator_click; Thread_step 0 Returns;
             Thread_step 0 Returns; Thread_step 0 Returns] in
  reachable submitted /\ threads submitted = [w] /\
  forallb before_reset ls = true /\
  coordinator_state (step Mainloop_after (run ls submitted)) = IDLE.
Proof.
  intros w ls.
  assert (Hr : reachable submitted)
    by apply reachable_run, reachable_initial.
  destruct (trigger_always_re_enabled submitted w ls Hr eq_refl eq_refl
              (le_n 6)) as (_ & _ & Hidle).
  split; [exact Hr |]. split; [reflexivity |]. split; [reflexivity |].
  exact Hidle.
Defined.

(** The engine queues: after [setProperty('rate', 300)] it is still at
    200 with the command pending, and an utterance left queued by a
    failed run is spoken by the next run loop at the rate queued with
    it, before the text of the retry at the rate of the retry. *)
Example left_over_utterance_keeps_its_rate :
  engine speaking =
    Some {| rate := 200; pending := [Set_rate 300]; spoken := [] |} /\
  engine retried =
    Some {| rate := 250; pending := [];
            spoken := [(py "Access granted.", 300%Z); (py "Retry.", 250%Z)] |}.
Proof. split; vm_compute; reflexivity. Qed.

Lemma successful_run_witness :
  let s := step (Operator_edit (py "Access granted.")) initial_state in
  let s6 :=
    run [Operator_click; Operator_edit (py "Something else");
         Thread_step 0 Returns; Operator_slide 300;
         Thread_step 0 Returns; Operator_slide 100;
         Thread_step 0 Returns; Thread_step 0 Returns;
         Thread_step 0 Returns; Mainloop_after] s in
  reachable s /\ coordinator_state s = IDLE /\
  idle s6 /\
  engine s6 = Some {| rate := 300; pending := [];
                      spoken := [(py "Access granted.", 300%Z)] |}.
Proof.
  intros s s6.
  assert (Hr : reachable s) by apply reachable_step, reachable_initial.
  assert (Hraw : strip (text_area_get s) <> [])
    by (vm_compute; discriminate).
  pose proof (successful_run s
                [Operator_edit (py "Something else")] [Operator_slide 300]
                [Operator_slide 100] [] [] []
                Hr eq_refl Hraw eq_refl eq_refl eq_refl eq_refl eq_refl eq_refl)
    as H.
  cbv zeta in H. destruct H as [Hidle Heng].
  split; [exact Hr |]. split; [reflexivity |].
  vm_compute in Hidle, Heng. vm_compute.
  split; [exact Hidle | exact Heng].
Defined.

Lemma calls_follow_statement_order_witness :
  reachable finished /\
  call_order K_none (trace finished) = Some K_none /\
  call_order K_none (trace speaking) = Some K_rate_set.
Proof.
  assert (Hr : reachable finished).
  { apply reachable_run, reachable_step, reachable_run, reachable_run,
      reachable_initial. }
  destruct (calls_follow_statement_order finished Hr) as [q [Hq Hph]].
  cbv in Hph. subst q.
  split; [exact Hr |]. split; [exact Hq | reflexivity].
Defined.

End MoreExamples.
